(** * IgxColumnComponent: sizing, multi-row layout and pinning

    A shallow embedding of the column component of the grid
    (class [IgxColumnComponent]): the [width] and [minWidth] accessors, the
    multi-row-layout spans, the reconciliation of the child column sizes
    ([getInitialChildColumnSizes], [getFilledChildColumnSizes]) and the
    [pin] / [unpin] methods.

    The component is TypeScript, so the values it handles are the values
    of the JavaScript runtime.  The first part of the file models the few
    runtime primitives the column code calls ([parseInt], [parseFloat],
    truthiness, [Number] to [String] conversion, array [splice] and
    [indexOf]); the following parts follow the class, member by member. *)

From Stdlib Require Import ZArith String Ascii List Bool Lia Floats DecimalString.
From stdpp Require Import base option list gmap.

Open Scope string_scope.
Open Scope Z_scope.

(** ** The runtime: numbers, strings, truthiness *)

Module JS.

(** A Number is an IEEE 754 binary64 value: Rocq's primitive [float]. *)

Definition float_of_Z (z : Z) : float :=
  SF2Prim (binary_normalize prec emax z 0 false).

Definition number_truthy (x : float) : bool :=
  negb (is_nan x || is_zero x).

(** Strings are sequences of code units; [string] covers the code units
    below 256, which is where every character the column code looks for
    lives (digits, sign, dot, percent sign, white space). *)

Definition string_truthy (s : string) : bool :=
  match s with EmptyString => false | String _ _ => true end.

Definition is_digit (c : ascii) : bool :=
  let n := Z.of_nat (nat_of_ascii c) in (48 <=? n) && (n <=? 57).

Definition digit_value (c : ascii) : Z := Z.of_nat (nat_of_ascii c) - 48.

(** StrWhiteSpaceChar restricted to code units below 256: TAB, LF, VT, FF,
    CR, SP and NBSP. *)
Definition is_whitespace (c : ascii) : bool :=
  let n := Z.of_nat (nat_of_ascii c) in
  ((9 <=? n) && (n <=? 13)) || (n =? 32) || (n =? 160).

Fixpoint trim_start (s : string) : string :=
  match s with
  | String c r => if is_whitespace c then trim_start r else s
  | EmptyString => EmptyString
  end.

(** The regular expression [/^[0-9]*$/] (no flags): every code unit is a
    digit; the empty string matches. *)
Fixpoint all_digits (s : string) : bool :=
  match s with
  | EmptyString => true
  | String c r => is_digit c && all_digits r
  end.

(** [s.indexOf(c) !== -1] for a one-character needle. *)
Fixpoint contains_char (c : ascii) (s : string) : bool :=
  match s with
  | EmptyString => false
  | String d r => if Ascii.eqb c d then true else contains_char c r
  end.

(** [s.endsWith(t)]. *)
Definition ends_with (t s : string) : bool :=
  let n := String.length s in
  let k := String.length t in
  (k <=? n)%nat && String.eqb (substring (n - k) k s) t.

(** *** Number::toString

    The shortest decimal numeral that reads back as the same binary64
    value, laid out as the language prescribes (plain digits, a decimal
    point, or exponent notation).  The value is [m * 2 ^ e]; everything is
    computed in exact integer arithmetic. *)

(** Compares [a * 10 ^ q] with [b * 2 ^ t]. *)
Definition cmp_scaled (a q b t : Z) : comparison :=
  (a * 10 ^ Z.max q 0 * 2 ^ Z.max (- t) 0) ?= (b * 10 ^ Z.max (- q) 0 * 2 ^ Z.max t 0).

(** The least [n], searched upwards from [n0], with [m * 2 ^ e < 10 ^ n]. *)
Fixpoint decimal_exponent_from (fuel : nat) (m e n0 : Z) : Z :=
  match fuel with
  | O => n0
  | S fuel' =>
      match cmp_scaled 1 n0 m e with
      | Gt => n0
      | _ => decimal_exponent_from fuel' m e (n0 + 1)
      end
  end.

Definition decimal_exponent (m e : Z) : Z :=
  decimal_exponent_from 6 m e (((Z.log2 m + e) * 30103) / 100000 - 1).

(** [floor (m * 2 ^ e / 10 ^ q)]. *)
Definition floor_scaled (m e q : Z) : Z :=
  (m * 2 ^ Z.max e 0 * 10 ^ Z.max (- q) 0) / (2 ^ Z.max (- e) 0 * 10 ^ Z.max q 0).

(** Whether [s * 10 ^ q] rounds to [m * 2 ^ e]: it lies between the
    midpoints to the neighbouring values, the midpoints themselves
    included when the significand is even. *)
Definition rounds_to (m e s q : Z) : bool :=
  let t := e - 2 in
  let lo := if (m =? 2 ^ 52) && (-1074 <? e) then 4 * m - 1 else 4 * m - 2 in
  let hi := 4 * m + 2 in
  let above := match cmp_scaled s q lo t with Gt => true | Eq => Z.even m | Lt => false end in
  let below := match cmp_scaled s q hi t with Lt => true | Eq => Z.even m | Gt => false end in
  above && below.

(** The digits [s], their number [k] and the exponent [n] of the shortest
    numeral, tried for [k], [k + 1], ... digits. *)
Fixpoint shortest_from (fuel : nat) (m e n k : Z) : Z * Z * Z :=
  let q := n - k in
  let sl := floor_scaled m e q in
  let sh := sl + 1 in
  let pick (s : Z) := if s =? 10 ^ k then (s / 10, k, n + 1) else (s, k, n) in
  match fuel with
  | O => (sl, k, n)
  | S fuel' =>
      match rounds_to m e sl q, rounds_to m e sh q with
      | true, true =>
          match cmp_scaled (sl + sh) q (8 * m) (e - 2) with
          | Gt => pick sl
          | Lt => pick sh
          | Eq => if Z.even sl then pick sl else pick sh
          end
      | true, false => pick sl
      | false, true => pick sh
      | false, false => shortest_from fuel' m e n (k + 1)
      end
  end.

Definition digits_of (z : Z) : string :=
  NilZero.string_of_uint (N.to_uint (Z.to_N z)).

Fixpoint zeros (n : nat) : string :=
  match n with O => EmptyString | S n' => String "0" (zeros n') end.

Definition layout (s k n : Z) : string :=
  let d := digits_of s in
  if (k <=? n) && (n <=? 21) then
    (d ++ zeros (Z.to_nat (n - k)))%string
  else if (0 <? n) && (n <=? 21) then
    (substring 0 (Z.to_nat n) d ++ "." ++ substring (Z.to_nat n) (Z.to_nat (k - n)) d)%string
  else if (-6 <? n) && (n <=? 0) then
    ("0." ++ zeros (Z.to_nat (- n)) ++ d)%string
  else
    let ex := n - 1 in
    let mant :=
      if k =? 1 then d
      else (substring 0 1 d ++ "." ++ substring 1 (Z.to_nat (k - 1)) d)%string in
    let sign := if ex <? 0 then "-" else "+" in
    (mant ++ "e" ++ sign ++ digits_of (Z.abs ex))%string.

Definition Number_toString (x : float) : string :=
  match Prim2SF x with
  | S754_nan => "NaN"
  | S754_zero _ => "0"
  | S754_infinity sg => if sg then "-Infinity" else "Infinity"
  | S754_finite sg m e =>
      let '(s, k, n) := shortest_from 17 (Zpos m) e (decimal_exponent (Zpos m) e) 1 in
      ((if sg then "-" else "") ++ layout s k n)%string
  end%string.

(** *** Values

    The dynamically typed values the column code receives where the
    declared type is [string] or [any]. *)

Inductive value :=
| Undefined
| Null
| Number (x : float)
| Str (s : string).

Definition ToBoolean (v : value) : bool :=
  match v with
  | Undefined | Null => false
  | Number x => number_truthy x
  | Str s => string_truthy s
  end.

Definition ToString (v : value) : string :=
  match v with
  | Undefined => "undefined"
  | Null => "null"
  | Number x => Number_toString x
  | Str s => s
  end%string.

(** *** parseInt(string, 10) *)

Fixpoint leading_digits (s : string) (acc : Z) (seen : bool) : option Z :=
  match s with
  | String c r =>
      if is_digit c then leading_digits r (10 * acc + digit_value c) true
      else if seen then Some acc else None
  | EmptyString => if seen then Some acc else None
  end.

Definition parseInt10_string (s : string) : float :=
  let t := trim_start s in
  let '(neg, body) :=
    match t with
    | String "-" r => (true, r)
    | String "+" r => (false, r)
    | _ => (false, t)
    end in
  match leading_digits body 0 false with
  | None => nan
  | Some z => if neg then (- float_of_Z z)%float else float_of_Z z
  end.

(** [parseInt(v, 10)]: the argument is converted to a string first. *)
Definition parseInt10 (v : value) : float := parseInt10_string (ToString v).

(** *** Number.isNaN(parseFloat(string))

    [parseFloat] yields NaN exactly when the string, after its leading
    white space, has no prefix that is a decimal literal: an optional sign
    followed by [Infinity], by a digit, or by a dot and a digit. *)

Definition starts_with (p s : string) : bool :=
  String.eqb (substring 0 (String.length p) s) p.

Definition has_decimal_prefix (s : string) : bool :=
  let body :=
    match s with
    | String "-" r | String "+" r => r
    | _ => s
    end in
  match body with
  | String c r =>
      is_digit c
      || (Ascii.eqb c "." && match r with String d _ => is_digit d | EmptyString => false end)
      || starts_with "Infinity" body
  | EmptyString => false
  end.

Definition parseFloat_isNaN (s : string) : bool :=
  negb (has_decimal_prefix (trim_start s)).

(** *** Array.prototype.indexOf and splice on arrays of object references *)

Fixpoint indexOf_from (l : list nat) (x : nat) (i : Z) : Z :=
  match l with
  | [] => -1
  | y :: r => if Nat.eqb y x then i else indexOf_from r x (i + 1)
  end.

Definition indexOf (l : list nat) (x : nat) : Z := indexOf_from l x 0.

(** The start position [splice] works from: counted from the end when
    negative, and clamped to the array. *)
Definition splice_start (start : Z) (l : list nat) : nat :=
  let len := Z.of_nat (length l) in
  Z.to_nat (if start <? 0 then Z.max (len + start) 0 else Z.min start len).

(** [l.splice(start, 0, x)]. *)
Definition splice_insert (start : Z) (x : nat) (l : list nat) : list nat :=
  let k := splice_start start l in
  take k l ++ x :: drop k l.

(** [l.splice(start, 1)]. *)
Definition splice_remove (start : Z) (l : list nat) : list nat :=
  let k := splice_start start l in
  take k l ++ drop (S k) l.

(** [l[i]] on an array of references: [undefined] out of range. *)
Definition item (l : list nat) (i : Z) : option nat :=
  if i <? 0 then None else l !! Z.to_nat i.

End JS.

(** ** The grid, as far as a column reads it

    The grid class ([IgxGridBaseDirective]) is not part of these sources.
    A column reaches it through [this.grid]; the record holds the members
    the column code reads or writes.  [calcWidth], [featureColumnsWidth()]
    and [getPossibleColumnWidth()] are given by their values. *)

Inductive DisplayDensity := comfortable | cosy | compact.

Module Grid.
Record t := {
  displayDensity : DisplayDensity;
  columnWidthSetByUser : bool;
  calcWidth : float;
  featureColumnsWidth : float;
  getPossibleColumnWidth : string;
  _init : bool;
  _pinnedColumns : list nat;
  _unpinnedColumns : list nat
}.

Definition with_columns (g : t) (pinnedCols unpinnedCols : list nat) : t :=
  {| displayDensity := displayDensity g;
     columnWidthSetByUser := columnWidthSetByUser g;
     calcWidth := calcWidth g;
     featureColumnsWidth := featureColumnsWidth g;
     getPossibleColumnWidth := getPossibleColumnWidth g;
     _init := _init g;
     _pinnedColumns := pinnedCols;
     _unpinnedColumns := unpinnedCols |}.
End Grid.

(** ** The column component

    The fields of [IgxColumnComponent] that sizing, layout and pinning
    touch.  A field the class leaves uninitialised is [undefined] until it
    is assigned: [None].  Columns are objects; another column is referred
    to by its identity, a number ([parent], the grid's column arrays). *)

Record Column := {
  colStart : option Z;
  colEnd : option Z;
  rowStart : option Z;
  rowEnd : option Z;
  _width : option string;
  defaultWidth : option string;
  widthSetByUser : option bool;
  _calcWidth : JS.value;
  calcPixelWidth : option float;
  _defaultMinWidth : string;
  _hidden : bool;
  _pinned : bool;
  _unpinnedIndex : option Z;
  parent : option nat
}.

(** A column as its field initialisers leave it. *)
Definition new_column : Column :=
  {| colStart := None; colEnd := None; rowStart := None; rowEnd := None;
     _width := None; defaultWidth := None; widthSetByUser := None;
     _calcWidth := JS.Null; calcPixelWidth := None;
     _defaultMinWidth := ""; _hidden := false; _pinned := false;
     _unpinnedIndex := None; parent := None |}.

Definition with_calc (c : Column) (cw : JS.value) (px : option float) : Column :=
  {| colStart := colStart c; colEnd := colEnd c; rowStart := rowStart c; rowEnd := rowEnd c;
     _width := _width c; defaultWidth := defaultWidth c; widthSetByUser := widthSetByUser c;
     _calcWidth := cw; calcPixelWidth := px;
     _defaultMinWidth := _defaultMinWidth c; _hidden := _hidden c; _pinned := _pinned c;
     _unpinnedIndex := _unpinnedIndex c; parent := parent c |}.

Definition with_width (c : Column) (w : option string) (byUser : option bool) : Column :=
  {| colStart := colStart c; colEnd := colEnd c; rowStart := rowStart c; rowEnd := rowEnd c;
     _width := w; defaultWidth := defaultWidth c; widthSetByUser := byUser;
     _calcWidth := _calcWidth c; calcPixelWidth := calcPixelWidth c;
     _defaultMinWidth := _defaultMinWidth c; _hidden := _hidden c; _pinned := _pinned c;
     _unpinnedIndex := _unpinnedIndex c; parent := parent c |}.

Definition with_defaultMinWidth (c : Column) (m : string) : Column :=
  {| colStart := colStart c; colEnd := colEnd c; rowStart := rowStart c; rowEnd := rowEnd c;
     _width := _width c; defaultWidth := defaultWidth c; widthSetByUser := widthSetByUser c;
     _calcWidth := _calcWidth c; calcPixelWidth := calcPixelWidth c;
     _defaultMinWidth := m; _hidden := _hidden c; _pinned := _pinned c;
     _unpinnedIndex := _unpinnedIndex c; parent := parent c |}.

Definition with_pinned (c : Column) (p : bool) (unpinnedIndex : option Z) : Column :=
  {| colStart := colStart c; colEnd := colEnd c; rowStart := rowStart c; rowEnd := rowEnd c;
     _width := _width c; defaultWidth := defaultWidth c; widthSetByUser := widthSetByUser c;
     _calcWidth := _calcWidth c; calcPixelWidth := calcPixelWidth c;
     _defaultMinWidth := _defaultMinWidth c; _hidden := _hidden c; _pinned := p;
     _unpinnedIndex := unpinnedIndex; parent := parent c |}.

(** Truthiness of an optional number, boolean or string field. *)
Definition truthyZ (x : option Z) : bool :=
  match x with Some z => negb (z =? 0) | None => false end.

Definition truthyB (x : option bool) : bool :=
  match x with Some b => b | None => false end.

Definition truthyS (x : option string) : bool :=
  match x with Some s => JS.string_truthy s | None => false end.

(** The value of a number field that has been found truthy. *)
Definition num (x : option Z) : Z := default 0 x.

(** *** Accessors *)

(** [get width()] *)
Definition width (c : Column) : option string :=
  if truthyB (widthSetByUser c) then _width c else defaultWidth c.

(** [get hidden()], [get pinned()] *)
Definition hidden (c : Column) : bool := _hidden c.
Definition pinned (c : Column) : bool := _pinned c.

(** [protected cacheCalcWidth()] *)
Definition cacheCalcWidth (grid : Grid.t) (c : Column) : Column :=
  let colWidth := width c in
  let isPercentageWidth :=
    match colWidth with
    | Some s => JS.string_truthy s && JS.contains_char "%" s
    | None => false
    end in
  let cw :=
    if isPercentageWidth then
      JS.Number (JS.parseInt10_string (default "" colWidth) / JS.float_of_Z 100
                 * (Grid.calcWidth grid - Grid.featureColumnsWidth grid))%float
    else if negb (truthyS colWidth) then
      (* no width *)
      JS.Str (if truthyS (defaultWidth c) then default "" (defaultWidth c)
              else Grid.getPossibleColumnWidth grid)
    else
      JS.Str (default "" (width c)) in
  with_calc c cw (Some (JS.parseInt10 cw)).

(** [isNaN(this.calcPixelWidth)]: [undefined] converts to NaN. *)
Definition calcPixelWidth_isNaN (c : Column) : bool :=
  match calcPixelWidth c with Some x => is_nan x | None => true end.

(** [getCalcWidth()], which is also [get calcWidth()]: the value returned
    and the column afterwards, its cache filled when it was not.  The
    cache holds when [this._calcWidth !== null && !isNaN(this.calcPixelWidth)]. *)
Definition calcWidth_cached (c : Column) : bool :=
  match _calcWidth c with JS.Null => false | _ => true end
  && negb (calcPixelWidth_isNaN c).

Definition getCalcWidth (grid : Grid.t) (c : Column) : JS.value * Column :=
  if calcWidth_cached c
  then (_calcWidth c, c)
  else let c' := cacheCalcWidth grid c in (_calcWidth c', c').

(** [typeof value === 'number' || value.match(/^[0-9]*$/)] *)
Definition plain_number (value : JS.value) : bool :=
  match value with
  | JS.Number _ => true
  | JS.Str s => JS.all_digits s
  | _ => false
  end.

(** [set width(value)].  [this.grid] may not be there yet when the
    setter runs; the emitted [widthChange] event leaves the column as it
    is. *)
Definition set_width (grid : option Grid.t) (value : JS.value) (c : Column) : Column :=
  if JS.ToBoolean value then
    let c1 := with_width (with_calc c JS.Null (Some nan)) (_width c) (Some true) in
    (* host bindings are not px affixed: simple number strings get the affix *)
    let value' :=
      if plain_number value
      then (JS.ToString value ++ "px")%string
      else JS.ToString value in
    let c2 := with_width c1 (Some value') (widthSetByUser c1) in
    match grid with
    | Some g => cacheCalcWidth g c2
    | None => c2
    end
  else c.

(** [get defaultMinWidth()] *)
Definition defaultMinWidth (grid : option Grid.t) : string :=
  match grid with
  | None => "80"
  | Some g =>
      match Grid.displayDensity g with
      | cosy => "64"
      | compact => "56"
      | comfortable => "80"
      end
  end.

(** [set minWidth(value)] and [get minWidth()] *)
Definition set_minWidth (value : string) (c : Column) : Column :=
  if JS.parseFloat_isNaN value then c
  else with_defaultMinWidth c value.

Definition minWidth (grid : option Grid.t) (c : Column) : string :=
  if negb (JS.string_truthy (_defaultMinWidth c)) then defaultMinWidth grid
  else _defaultMinWidth c.

(** [get gridRowSpan()], [get gridColumnSpan()] *)
Definition gridRowSpan (c : Column) : Z :=
  if truthyZ (rowEnd c) && truthyZ (rowStart c) then num (rowEnd c) - num (rowStart c) else 1.

Definition gridColumnSpan (c : Column) : Z :=
  if truthyZ (colEnd c) && truthyZ (colStart c) then num (colEnd c) - num (colStart c) else 1.

(** [get pinnable()] *)
Definition pinnable (grid : Grid.t) (c : Column) : bool :=
  Grid._init grid || negb (pinned c).

(** ** Multi-row layout: the sizes of the child columns *)

(** The store of the column objects: the column behind each identity. *)
Definition Columns := nat -> Column.

Definition set_column (r : nat) (c : Column) (cols : Columns) : Columns :=
  fun r' => if Nat.eqb r' r then c else cols r'.

Module MRLColumnSizeInfo.
Record t := {
  ref : nat;
  width : option float;
  colSpan : Z;
  colEnd : Z;
  widthSetByUser : option bool
}.

(** [!!info.width]: [null], [0] and NaN are falsy. *)
Definition has_width (e : t) : bool :=
  match width e with Some x => JS.number_truthy x | None => false end.

(** [info.width] as the operand of a division: [null] converts to [0]. *)
Definition width_number (e : t) : float :=
  match width e with Some x => x | None => JS.float_of_Z 0 end.
End MRLColumnSizeInfo.

(** The array [columnSizes].  Its elements are objects, and one object can
    sit in several slots, so the array holds identities and the objects
    live in a heap of their own.  The array is sparse: a slot that was
    never assigned is a hole, read as [undefined].  An assignment at an
    array index at or beyond [length] extends the array; an assignment at
    any other integer key (a negative one) is an ordinary property and
    leaves [length] alone. *)
Module ColumnSizes.
Record t := {
  slots : gmap Z nat;
  length : Z;
  objects : list MRLColumnSizeInfo.t
}.

Definition empty : t := {| slots := ∅; length := 0; objects := [] |}.

Definition is_index (i : Z) : bool := (0 <=? i) && (i <? 2 ^ 32 - 1).

(** [columnSizes[i]] *)
Definition get (a : t) (i : Z) : option MRLColumnSizeInfo.t :=
  match slots a !! i with
  | Some l => objects a !! l
  | None => None
  end.

(** [columnSizes[i] = o], for an object [o] of identity [l]. *)
Definition set_slot (a : t) (i : Z) (l : nat) : t :=
  {| slots := <[i := l]> (slots a);
     length := if is_index i then Z.max (length a) (i + 1) else length a;
     objects := objects a |}.

(** [columnSizes[i] = { ... }]: a new object. *)
Definition set_new (a : t) (i : Z) (e : MRLColumnSizeInfo.t) : t :=
  set_slot {| slots := slots a; length := length a; objects := objects a ++ [e] |}
           i (List.length (objects a)).

(** [columnSizes[i] = columnSizes[k]], slot [k] holding an object. *)
Definition copy_slot (a : t) (k i : Z) : t :=
  match slots a !! k with
  | Some l => set_slot a i l
  | None => a
  end.

(** Assignment to the fields of the object of identity [l]. *)
Definition update (a : t) (l : nat) (e : MRLColumnSizeInfo.t) : t :=
  {| slots := slots a; length := length a; objects := <[l := e]> (objects a) |}.

(** [!columnSizes[i] || !columnSizes[i].widthSetByUser] *)
Definition open_slot (a : t) (i : Z) : bool :=
  match get a i with
  | Some e => negb (truthyB (MRLColumnSizeInfo.widthSetByUser e))
  | None => true
  end.
End ColumnSizes.

Section ChildColumnSizes.

(** [this.grid] of the receiver, which is also the grid of the children. *)
Variable grid : Grid.t.

(** The object literal
    [{ ref: col, width: ..., colSpan: ..., colEnd: ..., widthSetByUser: ... }].
    Reading [col.calcWidth] may fill the cache of the column; the other
    fields of the column stay as they are. *)
Definition size_info (r : nat) (cols : Columns) : MRLColumnSizeInfo.t * Columns :=
  let col := cols r in
  let '(w, cols') :=
    if truthyB (widthSetByUser col) || Grid.columnWidthSetByUser grid then
      let '(cw, col') := getCalcWidth grid col in
      (Some (JS.parseInt10 cw), set_column r col' cols)
    else (None, cols) in
  ({| MRLColumnSizeInfo.ref := r;
      MRLColumnSizeInfo.width := w;
      MRLColumnSizeInfo.colSpan := gridColumnSpan col;
      MRLColumnSizeInfo.colEnd := num (colStart col) + gridColumnSpan col;
      MRLColumnSizeInfo.widthSetByUser := widthSetByUser col |}, cols').

(** [for (let i = from; i < from + n; i++)]: the replaced column, which
    still sits in slot [k], takes the open slots until one is taken by a
    column whose width was set. *)
Fixpoint spread_old (n : nat) (i k : Z) (a : ColumnSizes.t) : ColumnSizes.t :=
  match n with
  | O => a
  | S n' =>
      if ColumnSizes.open_slot a i
      then spread_old n' (i + 1) k (ColumnSizes.copy_slot a k i)
      else a
  end.

(** [for (let i = from; i < from + n; i++)]: the wider column [r] takes
    the open slots, each with a new object. *)
Fixpoint spread_new (n : nat) (i : Z) (r : nat) (st : Columns * ColumnSizes.t)
  : Columns * ColumnSizes.t :=
  match n with
  | O => st
  | S n' =>
      if ColumnSizes.open_slot (snd st) i
      then
        let '(e, cols') := size_info r (fst st) in
        spread_new n' (i + 1) r (cols', ColumnSizes.set_new (snd st) i e)
      else st
  end.

(** The body of [children.forEach(col => ...)]: find the smallest col
    spans. *)
Definition place (st : Columns * ColumnSizes.t) (r : nat) : Columns * ColumnSizes.t :=
  let '(cols, a) := st in
  let col := cols r in
  if negb (truthyZ (colStart col)) then st
  else
    let k := num (colStart col) - 1 in
    let span := gridColumnSpan col in
    let byUser := truthyB (widthSetByUser col) in
    match ColumnSizes.get a k with
    | None =>
        (* nothing is defined yet: take any column at first *)
        let '(e, cols') := size_info r cols in
        (cols', ColumnSizes.set_new a k e)
    | Some old =>
        let oldByUser := truthyB (MRLColumnSizeInfo.widthSetByUser old) in
        let newWidthSet := byUser && negb oldByUser in
        let newSpanSmaller := span <? MRLColumnSizeInfo.colSpan old in
        let bothWidthsSet := byUser && oldByUser in
        let bothWidthsNotSet := negb byUser && negb oldByUser in
        if newWidthSet || (newSpanSmaller && (bothWidthsSet || bothWidthsNotSet)) then
          let a1 :=
            if bothWidthsSet && newSpanSmaller
            then spread_old (Z.to_nat (MRLColumnSizeInfo.colEnd old - 1 - (k + span)))
                            (k + span) k a
            else a in
          (* replace the old column with the new one *)
          let '(e, cols') := size_info r cols in
          (cols', ColumnSizes.set_new a1 k e)
        else if bothWidthsSet && (MRLColumnSizeInfo.colSpan old <? span) then
          spread_new (Z.to_nat (k + span - (k + MRLColumnSizeInfo.colSpan old)))
                     (k + MRLColumnSizeInfo.colSpan old) r (cols, a)
        else st
    end.

(** The width a column of span greater than 1 hands to each slot it
    covers: divided by the span when the width was set by the user. *)
Definition shared_width (e : MRLColumnSizeInfo.t) : option float :=
  if truthyB (MRLColumnSizeInfo.widthSetByUser e)
  then Some (MRLColumnSizeInfo.width_number e
             / JS.float_of_Z (MRLColumnSizeInfo.colSpan e))%float
  else MRLColumnSizeInfo.width e.

Definition flattened (e : MRLColumnSizeInfo.t) : MRLColumnSizeInfo.t :=
  {| MRLColumnSizeInfo.ref := MRLColumnSizeInfo.ref e;
     MRLColumnSizeInfo.width := shared_width e;
     MRLColumnSizeInfo.colSpan := 1;
     MRLColumnSizeInfo.colEnd := MRLColumnSizeInfo.colEnd e;
     MRLColumnSizeInfo.widthSetByUser := MRLColumnSizeInfo.widthSetByUser e |}.

(** The test that stops the inner loop of the flattening at slot
    [i + j]: an already defined column that has a width while the
    current one has none, or one whose span is not bigger. *)
Definition stops_at (cur : MRLColumnSizeInfo.t) (next : option MRLColumnSizeInfo.t) : bool :=
  match next with
  | None => false
  | Some nx =>
      let cw := MRLColumnSizeInfo.has_width cur in
      let nw := MRLColumnSizeInfo.has_width nx in
      let smaller := MRLColumnSizeInfo.colSpan nx <=? MRLColumnSizeInfo.colSpan cur in
      (negb cw && nw) || (negb cw && negb nw && smaller) || (nw && smaller)
  end.

(** [for (; j < columnSizes[i].colSpan && i + j + 1 < columnSizes[i].colEnd; j++)].
    [cur] is [columnSizes[i]], which the loop neither reassigns nor
    changes; [n] counts the values [j] can still take below its span. *)
Fixpoint fill_span (n : nat) (i j : Z) (cur : MRLColumnSizeInfo.t) (a : ColumnSizes.t)
  : Z * ColumnSizes.t :=
  match n with
  | O => (j, a)
  | S n' =>
      if (j <? MRLColumnSizeInfo.colSpan cur) && (i + j + 1 <? MRLColumnSizeInfo.colEnd cur) then
        if stops_at cur (ColumnSizes.get a (i + j)) then (j, a)
        else fill_span n' i (j + 1) cur (ColumnSizes.set_new a (i + j) (flattened cur))
      else (j, a)
  end.

(** [for (let i = ...; i < columnSizes.length; i++)]: flatten, so that no
    column is left with a span greater than 1.  [None] when the fuel
    runs out before the loop ends. *)
Fixpoint flatten_from (fuel : nat) (i : Z) (a : ColumnSizes.t) : option ColumnSizes.t :=
  if i <? ColumnSizes.length a then
    match fuel with
    | O => None
    | S fuel' =>
        match ColumnSizes.slots a !! i with
        | Some l =>
            match ColumnSizes.objects a !! l with
            | Some cur =>
                if 1 <? MRLColumnSizeInfo.colSpan cur then
                  let '(j, a1) :=
                    fill_span (Z.to_nat (MRLColumnSizeInfo.colSpan cur - 1)) i 1 cur a in
                  (* divide the width between the columns it spans, set the span to 1 *)
                  let a2 := ColumnSizes.update a1 l (flattened cur) in
                  flatten_from fuel' (i + (j - 1) + 1) a2
                else flatten_from fuel' (i + 1) a
            | None => flatten_from fuel' (i + 1) a
            end
        | None => flatten_from fuel' (i + 1) a
        end
    end
  else Some a.

(** The flattening never writes at or beyond the largest [colEnd - 1],
    which therefore bounds the length of the array and the number of
    rounds of the outer loop. *)
Definition flatten_bound (a : ColumnSizes.t) : Z :=
  fold_right Z.max (Z.max 0 (ColumnSizes.length a))
             (map MRLColumnSizeInfo.colEnd (ColumnSizes.objects a)).

Definition flatten (a : ColumnSizes.t) : option ColumnSizes.t :=
  flatten_from (Z.to_nat (flatten_bound a)) 0 a.

(** [getInitialChildColumnSizes(children)]: the columns afterwards and
    the array returned. *)
Definition getInitialChildColumnSizes (cols : Columns) (children : list nat)
  : option (Columns * ColumnSizes.t) :=
  let '(cols', a) := fold_left place children (cols, ColumnSizes.empty) in
  match flatten a with
  | Some a' => Some (cols', a')
  | None => None
  end.

(** [getFilledChildColumnSizes(children)]: fill the gaps if there are
    any. *)
Definition filled_size (a : ColumnSizes.t) (i : Z) : string :=
  match ColumnSizes.get a i with
  | Some e =>
      if MRLColumnSizeInfo.has_width e
      then (JS.Number_toString (MRLColumnSizeInfo.width_number e) ++ "px")%string
      else (JS.Number_toString
              (JS.parseInt10_string (Grid.getPossibleColumnWidth grid)) ++ "px")%string
  | None =>
      (JS.Number_toString
         (JS.parseInt10_string (Grid.getPossibleColumnWidth grid)) ++ "px")%string
  end.

Fixpoint filled_from (n : nat) (i : Z) (a : ColumnSizes.t) : list string :=
  match n with
  | O => []
  | S n' => filled_size a i :: filled_from n' (i + 1) a
  end.

Definition getFilledChildColumnSizes (cols : Columns) (children : list nat)
  : option (Columns * list string) :=
  match getInitialChildColumnSizes cols children with
  | Some (cols', columnSizes) =>
      Some (cols', filled_from (Z.to_nat (ColumnSizes.length columnSizes)) 0 columnSizes)
  | None => None
  end.

End ChildColumnSizes.

(** ** Pinning *)

(** The columns and their grid. *)
Record World := {
  columns : Columns;
  grid : Grid.t
}.

Definition with_column (w : World) (r : nat) (c : Column) : World :=
  {| columns := set_column r c (columns w); grid := grid w |}.

Definition with_grid_columns (w : World) (pinnedCols unpinnedCols : list nat) : World :=
  {| columns := columns w; grid := Grid.with_columns (grid w) pinnedCols unpinnedCols |}.

(** What [pin] and [unpin] call outside the column class: methods and
    getters of the grid, event emitters with the handlers subscribed to
    them, and the members of column groups and layouts, which are
    subclasses.  Each is taken as it comes: a function of the world. *)
Module Host.
Record t := {
  (** [grid.endEdit(commit)] *)
  endEdit : bool -> World -> World;
  (** [this.pinnedChange.emit(pinned)] *)
  pinnedChange_emit : nat -> bool -> World -> World;
  (** [grid.onColumnPinning.emit({ column, insertAtIndex, isPinned })]:
      the world after the handlers ran and [insertAtIndex] as they left
      it. *)
  onColumnPinning_emit : nat -> Z -> bool -> World -> Z * World;
  (** [grid._moveColumns(column, target)] *)
  _moveColumns : nat -> option nat -> World -> World;
  (** [grid.reinitPinStates()], [grid.resetCaches()], [grid.notifyChanges()] *)
  reinitPinStates : World -> World;
  resetCaches : World -> World;
  notifyChanges : World -> World;
  (** [grid.columns.filter(x => x.columnLayout).forEach(x => x.populateVisibleIndexes())] *)
  populateVisibleIndexes : World -> World;
  (** [grid.filteringService.refreshExpressions()] *)
  refreshExpressions : World -> World;
  (** [grid.pinnedColumns] and [grid.columns] *)
  pinnedColumns : World -> list nat;
  gridColumns : World -> list nat;
  (** [parent.columnLayout], a getter that the layout subclass overrides *)
  columnLayout : World -> nat -> bool;
  (** [this.topLevelParent.pin(index)] and [this.topLevelParent.unpin(index)],
      received by a column group *)
  topLevelParent_pin : nat -> option Z -> World -> bool * World;
  topLevelParent_unpin : nat -> option Z -> World -> bool * World
}.
End Host.

Section Pinning.

Variable host : Host.t.

(** [get columnGroup()] of the column class itself. *)
Definition columnGroup (c : Column) : bool := false.

(** [get columnLayoutChild()] *)
Definition columnLayoutChild (w : World) (c : Column) : bool :=
  match parent c with
  | Some p => Host.columnLayout host w p
  | None => false
  end.

(** [get index()] *)
Definition index (w : World) (this : nat) : Z :=
  JS.indexOf (Host.gridColumns host w) this.

(** [pin(index?)] on the column [this]: the value returned and the world
    afterwards. *)
Definition pin (this : nat) (idx : option Z) (w : World) : bool * World :=
  let w := Host.endEdit host true w in
  if _pinned (columns w this) then (false, w)
  else if match parent (columns w this) with
          | Some p => negb (pinned (columns w p))
          | None => false
          end
  then Host.topLevelParent_pin host this idx w
  else
    let hasIndex := match idx with Some _ => true | None => false end in
    if match idx with
       | Some i => (i <? 0) || (Z.of_nat (length (Host.pinnedColumns host w)) <=? i)
       | None => false
       end
    then (false, w)
    else if match parent (columns w this) with Some _ => false | None => true end
            && negb (pinnable (grid w) (columns w this))
    then (false, w)
    else
      let w := with_column w this
                 (with_pinned (columns w this) true (_unpinnedIndex (columns w this))) in
      let w := Host.pinnedChange_emit host this true w in
      let w := with_column w this
                 (with_pinned (columns w this) (_pinned (columns w this))
                    (Some (JS.indexOf (Grid._unpinnedColumns (grid w)) this))) in
      let idx :=
        match idx with
        | Some i => i
        | None => Z.of_nat (length (Grid._pinnedColumns (grid w)))
        end in
      let targetColumn := JS.item (Grid._pinnedColumns (grid w)) idx in
      let '(insertAtIndex, w) := Host.onColumnPinning_emit host this idx true w in
      let w :=
        if JS.indexOf (Grid._pinnedColumns (grid w)) this =? -1 then
          let w := with_grid_columns w
                     (JS.splice_insert insertAtIndex this (Grid._pinnedColumns (grid w)))
                     (Grid._unpinnedColumns (grid w)) in
          if negb (JS.indexOf (Grid._unpinnedColumns (grid w)) this =? -1) then
            with_grid_columns w
              (Grid._pinnedColumns (grid w))
              (JS.splice_remove (JS.indexOf (Grid._unpinnedColumns (grid w)) this)
                                (Grid._unpinnedColumns (grid w)))
          else w
        else w in
      let w := if hasIndex then Host._moveColumns host this targetColumn w else w in
      (* [this.columnGroup] is false: no children to pin *)
      let w := Host.resetCaches host w in
      let w := Host.notifyChanges host w in
      let w := if columnLayoutChild w (columns w this)
               then Host.populateVisibleIndexes host w else w in
      let w := Host.refreshExpressions host w in
      (true, w).

(** [unpin(index?)] *)
Definition unpin (this : nat) (idx : option Z) (w : World) : bool * World :=
  let w := Host.endEdit host true w in
  if negb (_pinned (columns w this)) then (false, w)
  else if match parent (columns w this) with
          | Some p => pinned (columns w p)
          | None => false
          end
  then Host.topLevelParent_unpin host this idx w
  else
    let hasIndex := match idx with Some _ => true | None => false end in
    if match idx with
       | Some i => (i <? 0) || (Z.of_nat (length (Grid._unpinnedColumns (grid w))) <=? i)
       | None => false
       end
    then (false, w)
    else
      let idx :=
        match idx with
        | Some i => i
        | None =>
            match _unpinnedIndex (columns w this) with
            | Some u => u
            | None => index w this
            end
        end in
      let w := with_column w this
                 (with_pinned (columns w this) false (_unpinnedIndex (columns w this))) in
      let w := Host.pinnedChange_emit host this false w in
      let targetColumn := JS.item (Grid._unpinnedColumns (grid w)) idx in
      let w := with_grid_columns w
                 (Grid._pinnedColumns (grid w))
                 (JS.splice_insert idx this (Grid._unpinnedColumns (grid w))) in
      let w :=
        if negb (JS.indexOf (Grid._pinnedColumns (grid w)) this =? -1) then
          with_grid_columns w
            (JS.splice_remove (JS.indexOf (Grid._pinnedColumns (grid w)) this)
                              (Grid._pinnedColumns (grid w)))
            (Grid._unpinnedColumns (grid w))
        else w in
      let w := if hasIndex then Host._moveColumns host this targetColumn w else w in
      (* [this.columnGroup] is false: no children to unpin *)
      let w := Host.reinitPinStates host w in
      let w := Host.resetCaches host w in
      let insertAtIndex := JS.indexOf (Grid._unpinnedColumns (grid w)) this in
      let w := snd (Host.onColumnPinning_emit host this insertAtIndex false w) in
      let w := Host.notifyChanges host w in
      let w := if columnLayoutChild w (columns w this)
               then Host.populateVisibleIndexes host w else w in
      let w := Host.refreshExpressions host w in
      (true, w).

End Pinning.

(** What the properties of pinning ask of the host: the calls that are
    not about the pinned and unpinned arrays leave them, and the pinning
    fields of every column, as they are. *)
Definition same_pinning (w w' : World) : Prop :=
  Grid._pinnedColumns (grid w') = Grid._pinnedColumns (grid w)
  /\ Grid._unpinnedColumns (grid w') = Grid._unpinnedColumns (grid w)
  /\ Grid._init (grid w') = Grid._init (grid w)
  /\ forall r, _pinned (columns w' r) = _pinned (columns w r)
               /\ _unpinnedIndex (columns w' r) = _unpinnedIndex (columns w r)
               /\ parent (columns w' r) = parent (columns w r).

Definition quiet (f : World -> World) : Prop := forall w, same_pinning w (f w).

Record HostFrame (host : Host.t) : Prop := {
  endEdit_quiet : forall b, quiet (Host.endEdit host b);
  pinnedChange_quiet : forall r b, quiet (Host.pinnedChange_emit host r b);
  onColumnPinning_quiet :
    forall r i b, quiet (fun w => snd (Host.onColumnPinning_emit host r i b w));
  resetCaches_quiet : quiet (Host.resetCaches host);
  notifyChanges_quiet : quiet (Host.notifyChanges host);
  populateVisibleIndexes_quiet : quiet (Host.populateVisibleIndexes host);
  refreshExpressions_quiet : quiet (Host.refreshExpressions host);
  (** [reinitPinStates] rebuilds the two arrays from the pinned state of
      the columns: a column that is not pinned and is in the unpinned
      array stays there. *)
  reinitPinStates_columns :
    forall w r, _pinned (columns (Host.reinitPinStates host w) r) = _pinned (columns w r);
  reinitPinStates_unpinned :
    forall w r, _pinned (columns w r) = false ->
                r ∈ Grid._unpinnedColumns (grid w) ->
                r ∈ Grid._unpinnedColumns (grid (Host.reinitPinStates host w))
}.

(** A host that does nothing, for running [pin] and [unpin] on an
    example. *)
Definition still_host : Host.t :=
  {| Host.endEdit := fun _ w => w;
     Host.pinnedChange_emit := fun _ _ w => w;
     Host.onColumnPinning_emit := fun _ i _ w => (i, w);
     Host._moveColumns := fun _ _ w => w;
     Host.reinitPinStates := fun w => w;
     Host.resetCaches := fun w => w;
     Host.notifyChanges := fun w => w;
     Host.populateVisibleIndexes := fun w => w;
     Host.refreshExpressions := fun w => w;
     Host.pinnedColumns := fun w => Grid._pinnedColumns (grid w);
     Host.gridColumns := fun w => (Grid._pinnedColumns (grid w) ++ Grid._unpinnedColumns (grid w))%list;
     Host.columnLayout := fun _ _ => false;
     Host.topLevelParent_pin := fun _ _ w => (false, w);
     Host.topLevelParent_unpin := fun _ _ w => (false, w) |}.

(** ** Other members of the column *)

Section PinnedSetter.

Variable host : Host.t.

(** [set pinned(value)], on a column that has its grid.  With a width
    that reads as a number the setter pins or unpins; without one it only
    records the state and the index among the unpinned columns, and
    leaves the arrays to the grid. *)
Definition set_pinned (this : nat) (value : bool) (w : World) : World :=
  if negb (Bool.eqb (_pinned (columns w this)) value) then
    if truthyS (width (columns w this))
       && negb (is_nan (JS.parseInt10_string (default "" (width (columns w this)))))
    then snd (if value then pin host this None w else unpin host this None w)
    else
      let unpinnedIndex :=
        JS.indexOf (List.filter (fun x => negb (pinned (columns w x)))
                                (Host.gridColumns host w)) this in
      let w := with_column w this
                 (with_pinned (columns w this) (_pinned (columns w this))
                              (Some unpinnedIndex)) in
      let w := with_column w this
                 (with_pinned (columns w this) value (_unpinnedIndex (columns w this))) in
      Host.pinnedChange_emit host this value w
  else w.

(** [getCellWidth()] *)
Definition getCellWidth (w : World) (c : Column) : option string :=
  let colWidth := width c in
  let isPercentageWidth :=
    match colWidth with
    | Some s => JS.string_truthy s && JS.contains_char "%" s
    | None => false
    end in
  if columnLayoutChild host w c then Some ""
  else if truthyS colWidth && negb isPercentageWidth then
    let cellWidth := default "" colWidth in
    Some (if negb (JS.ends_with "px" cellWidth) then (cellWidth ++ "px")%string
          else cellWidth)
  else colWidth.

End PinnedSetter.

(** A host whose [reinitPinStates] keeps the two arrays as they are, as
    the grid does when it has no column groups and the pinned state of
    its columns matches the arrays. *)
Definition reinit_quiet (host : Host.t) : Prop := quiet (Host.reinitPinStates host).

(** A host whose pinning handlers leave [insertAtIndex] as emitted. *)
Definition keeps_insertAtIndex (host : Host.t) : Prop :=
  forall r i b w, fst (Host.onColumnPinning_emit host r i b w) = i.

(** [get level()] and [get topLevelParent()] walk up the parents.  The
    walk is given fuel; [None] when it runs out before the walk ends. *)
Fixpoint level_from (fuel : nat) (cols : Columns) (ptr : option nat) (lvl : Z) : option Z :=
  match ptr with
  | None => Some lvl
  | Some p =>
      match fuel with
      | O => None
      | S fuel' => level_from fuel' cols (parent (cols p)) (lvl + 1)
      end
  end.

Definition level (fuel : nat) (cols : Columns) (this : nat) : option Z :=
  level_from fuel cols (parent (cols this)) 0.

Fixpoint topLevelParent_from (fuel : nat) (cols : Columns) (par : option nat)
  : option (option nat) :=
  match par with
  | None => Some None
  | Some p =>
      match parent (cols p) with
      | None => Some (Some p)
      | Some q =>
          match fuel with
          | O => None
          | S fuel' => topLevelParent_from fuel' cols (Some q)
          end
      end
  end.

Definition topLevelParent (fuel : nat) (cols : Columns) (this : nat) : option (option nat) :=
  topLevelParent_from fuel cols (parent (cols this)).

(** [checkCollapsibleState()], on a group whose children are [children]
    ([None] before the children are there); [visibleWhenCollapsed] gives
    the value of that property for each column. *)
Definition checkCollapsibleState
    (visibleWhenCollapsed : nat -> option bool) (children : option (list nat)) : bool :=
  match children with
  | None => false
  | Some l =>
      let cols := map visibleWhenCollapsed l in
      existsb (fun c => match c with Some true => true | _ => false end) cols
      && existsb (fun c => match c with Some false => true | _ => false end) cols
  end.

(** [MRLResizeColumnInfo] *)
Record MRLResizeColumnInfo := {
  target : nat;
  spanUsed : Z
}.

(** What a call leaves: the value returned, or the TypeError thrown on
    reading a property of [undefined]. *)
Inductive outcome (A : Type) :=
| Returned (a : A)
| TypeError.
Arguments Returned {A} a.
Arguments TypeError {A}.

Section Resizing.

Variable host : Host.t.
(** [field] of each column, and [children] of each column layout. *)
Variable field : nat -> option string.
Variable children_of : nat -> list nat.

(** The first loop of [getResizableColUnderEnd]: a target for every slot
    of the array from [colStart] up to [colEnd]. *)
Fixpoint resize_targets (n : nat) (i : Z) (colStart_ colEnd_ : option Z) (a : ColumnSizes.t)
  : outcome (list MRLResizeColumnInfo) :=
  match n with
  | O => Returned []
  | S n' =>
      if match colStart_, colEnd_ with
         | Some s, Some e => (s <=? i + 1) && (i + 1 <? e)
         | _, _ => false
         end
      then
        match ColumnSizes.get a i with
        | None => TypeError
        | Some e =>
            match resize_targets n' (i + 1) colStart_ colEnd_ a with
            | Returned l =>
                Returned ({| target := MRLColumnSizeInfo.ref e; spanUsed := 1 |} :: l)
            | TypeError => TypeError
            end
        end
      else resize_targets n' (i + 1) colStart_ colEnd_ a
  end.

(** [a.field === b.field] *)
Definition same_field (a b : nat) : bool :=
  match field a, field b with
  | Some s, Some t => String.eqb s t
  | None, None => true
  | _, _ => false
  end.

(** The second loop: neighbours with the same [field] are squashed into
    one target.  [acc] is [targetsSquashed], last element first. *)
Fixpoint squash (targets acc : list MRLResizeColumnInfo) : list MRLResizeColumnInfo :=
  match targets with
  | [] => rev acc
  | t :: rest =>
      match acc with
      | last :: acc' =>
          if same_field (target last) (target t)
          then squash rest ({| target := target last; spanUsed := spanUsed last + 1 |} :: acc')
          else squash rest (t :: acc)
      | [] => squash rest [t]
      end
  end.

(** [getResizableColUnderEnd()] on the column [this]: the columns
    afterwards and what the call leaves; [None] when the reconciliation
    runs out of fuel. *)
Definition getResizableColUnderEnd (w : World) (this : nat)
  : option (Columns * outcome (list MRLResizeColumnInfo)) :=
  let c := columns w this in
  (* [this.columnLayout] is false for the column class itself *)
  if negb (columnLayoutChild host w c) || columnGroup c
  then Some (columns w, Returned [{| target := this; spanUsed := 1 |}])
  else
    match parent c with
    | None => Some (columns w, TypeError)
    | Some p =>
        match getInitialChildColumnSizes (grid w) (columns w) (children_of p) with
        | None => None
        | Some (cols', columnSized) =>
            let colEnd_ :=
              if truthyZ (colEnd c) then colEnd c
              else match colStart c with Some s => Some (s + 1) | None => None end in
            Some (cols',
                  match resize_targets (Z.to_nat (ColumnSizes.length columnSized)) 0
                                       (colStart c) colEnd_ columnSized with
                  | Returned targets => Returned (squash targets [])
                  | TypeError => TypeError
                  end)
        end
    end.

End Resizing.

(** ** Vocabulary of the properties *)

(** The value [col.calcWidth] evaluates to. *)
Definition calcWidth (g : Grid.t) (c : Column) : JS.value := fst (getCalcWidth g c).

(** [c'] is [c] but for its cache of the calculated width. *)
Definition same_but_cache (c c' : Column) : Prop :=
  c' = with_calc c (_calcWidth c') (calcPixelWidth c').

(** Every column of [cols'] is the column of [cols] but for the cache, and
    its [calcWidth] evaluates as before. *)
Definition cache_only (g : Grid.t) (cols cols' : Columns) : Prop :=
  forall r, same_but_cache (cols r) (cols' r)
            /\ calcWidth g (cols' r) = calcWidth g (cols r).

(** The object the literal of [getInitialChildColumnSizes] builds for the
    column [c] of identity [r]. *)
Definition info_of (g : Grid.t) (r : nat) (c : Column) : MRLColumnSizeInfo.t :=
  {| MRLColumnSizeInfo.ref := r;
     MRLColumnSizeInfo.width :=
       if truthyB (widthSetByUser c) || Grid.columnWidthSetByUser g
       then Some (JS.parseInt10 (calcWidth g c)) else None;
     MRLColumnSizeInfo.colSpan := gridColumnSpan c;
     MRLColumnSizeInfo.colEnd := num (colStart c) + gridColumnSpan c;
     MRLColumnSizeInfo.widthSetByUser := widthSetByUser c |}.

(** Two columns agree on what the reconciliation reads. *)
Definition agree (g : Grid.t) (c1 c2 : Column) : Prop :=
  colStart c1 = colStart c2 /\ colEnd c1 = colEnd c2
  /\ rowStart c1 = rowStart c2 /\ rowEnd c1 = rowEnd c2
  /\ widthSetByUser c1 = widthSetByUser c2
  /\ calcWidth g c1 = calcWidth g c2.

(** Every object ends at or before [B], and so does the array. *)
Definition within (B : Z) (a : ColumnSizes.t) : Prop :=
  ColumnSizes.length a <= B
  /\ Forall (fun e => MRLColumnSizeInfo.colEnd e <= B) (ColumnSizes.objects a).

(** An object as the first pass builds it for its column. *)
Definition original (g : Grid.t) (cols : Columns) (e : MRLColumnSizeInfo.t) : Prop :=
  e = info_of g (MRLColumnSizeInfo.ref e) (cols (MRLColumnSizeInfo.ref e)).

(** An object the flattening made, or made over, from a column that
    spanned more than one slot. *)
Definition flat (g : Grid.t) (cols : Columns) (e : MRLColumnSizeInfo.t) : Prop :=
  exists o, original g cols o /\ 1 < MRLColumnSizeInfo.colSpan o /\ e = flattened o.

(** Every slot of the array holds an object of the heap. *)
Definition well_formed (a : ColumnSizes.t) : Prop :=
  forall k l, ColumnSizes.slots a !! k = Some l -> (l < length (ColumnSizes.objects a))%nat.

(** The slots below [i] hold no column that spans more than one slot. *)
Definition flat_below (i : Z) (a : ColumnSizes.t) : Prop :=
  forall k e, 0 <= k < i -> ColumnSizes.get a k = Some e -> MRLColumnSizeInfo.colSpan e <= 1.

(** The state of the first pass: the columns differ from the ones it
    started with in their caches only, and every object is the literal of
    its column. *)
Definition first_pass_inv (g : Grid.t) (cols0 : Columns) (st : Columns * ColumnSizes.t) : Prop :=
  cache_only g cols0 (fst st)
  /\ well_formed (snd st)
  /\ Forall (original g cols0) (ColumnSizes.objects (snd st)).

(** An object of the array during the second pass. *)
Definition built (g : Grid.t) (cols0 : Columns) (e : MRLColumnSizeInfo.t) : Prop :=
  original g cols0 e \/ flat g cols0 e.

(** The state of the second pass when it reaches slot [i]. *)
Definition second_pass_inv (g : Grid.t) (cols0 : Columns) (i : Z) (a : ColumnSizes.t) : Prop :=
  well_formed a /\ Forall (built g cols0) (ColumnSizes.objects a) /\ flat_below i a.

(** The width the grid can give a column, in pixels, as the filling
    writes it. *)
Definition possible_size (g : Grid.t) : string :=
  JS.Number_toString (JS.parseInt10_string (Grid.getPossibleColumnWidth g)) ++ "px".

(** The column after [calcWidth] was read on it. *)
Definition after_read (g : Grid.t) (c : Column) : Column := snd (getCalcWidth g c).

(** The width of the column counts in the reconciliation, which then
    reads [calcWidth]: it was set by the user, or a width was set for all
    the columns of the grid. *)
Definition width_counts (g : Grid.t) (c : Column) : bool :=
  truthyB (widthSetByUser c) || Grid.columnWidthSetByUser g.

(** The columns during the first pass: each is as it was, or is a child
    with a [colStart] whose width counts, after a read of [calcWidth];
    and the column of every object made so far was read when its width
    counts. *)
Definition read_inv (g : Grid.t) (cols0 : Columns) (children : list nat)
    (st : Columns * ColumnSizes.t) : Prop :=
  (forall r, fst st r = cols0 r
             \/ (r ∈ children /\ truthyZ (colStart (cols0 r)) = true
                 /\ width_counts g (cols0 r) = true
                 /\ fst st r = after_read g (cols0 r)))
  /\ Forall (fun e => width_counts g (cols0 (MRLColumnSizeInfo.ref e)) = true ->
                      fst st (MRLColumnSizeInfo.ref e)
                      = after_read g (cols0 (MRLColumnSizeInfo.ref e)))
            (ColumnSizes.objects (snd st)).

(** ** Sample columns and grids, for running the definitions *)

(** A child of a column layout: [colStart = 2], [colEnd = 5], [rowStart = 1]
    and no [rowEnd]. *)
Definition sample_child : Column :=
  {| colStart := Some 2; colEnd := Some 5; rowStart := Some 1; rowEnd := None;
     _width := None; defaultWidth := None; widthSetByUser := None;
     _calcWidth := JS.Null; calcPixelWidth := None;
     _defaultMinWidth := ""; _hidden := false; _pinned := false;
     _unpinnedIndex := None; parent := None |}.

(** A grid of 1000 pixels whose columns get 136 pixels when they ask for
    none; [sized_grid] is the same grid once a width was set for all its
    columns. *)
Definition sample_grid : Grid.t :=
  {| Grid.displayDensity := comfortable;
     Grid.columnWidthSetByUser := false;
     Grid.calcWidth := JS.float_of_Z 1000;
     Grid.featureColumnsWidth := JS.float_of_Z 0;
     Grid.getPossibleColumnWidth := "136px";
     Grid._init := true;
     Grid._pinnedColumns := [];
     Grid._unpinnedColumns := [0%nat; 1%nat; 2%nat] |}.

Definition sized_grid : Grid.t :=
  {| Grid.displayDensity := comfortable;
     Grid.columnWidthSetByUser := true;
     Grid.calcWidth := JS.float_of_Z 1000;
     Grid.featureColumnsWidth := JS.float_of_Z 0;
     Grid.getPossibleColumnWidth := "136px";
     Grid._init := true;
     Grid._pinnedColumns := [];
     Grid._unpinnedColumns := [0%nat; 1%nat; 2%nat] |}.

(** A column as the template declares it: [colStart], [colEnd] and, when
    given, [width] (assigned through the setter, before the column has
    its grid). *)
Definition declared (cs ce : option Z) (w : option string) : Column :=
  let c :=
    {| colStart := cs; colEnd := ce; rowStart := Some 1; rowEnd := None;
       _width := None; defaultWidth := None; widthSetByUser := None;
       _calcWidth := JS.Null; calcPixelWidth := None;
       _defaultMinWidth := ""; _hidden := false; _pinned := false;
       _unpinnedIndex := None; parent := None |} in
  match w with
  | Some s => set_width None (JS.Str s) c
  | None => c
  end.

(** The columns of a list, by position; any other identity is a new
    column. *)
Definition columns_of (l : list Column) : Columns := fun r => nth r l new_column.

(** A layout of three columns: one of 300 pixels over the slots 1 to 3,
    one of 50 pixels in slot 1, one without width in slot 5. *)
Definition sample_layout : Columns :=
  columns_of [declared (Some 1) (Some 4) (Some "300px");
              declared (Some 1) (Some 2) (Some "50px");
              declared (Some 5) None None].

(** The same layout after the grid has calculated the widths once. *)
Definition sample_layout_cached : Columns :=
  fun r => snd (getCalcWidth sample_grid (sample_layout r)).

(** A column whose [colEnd] is its [colStart]. *)
Definition empty_span_layout : Columns :=
  columns_of [declared (Some 2) (Some 2) None].

(** Three columns as constructed, none of them pinned, in the sample
    grid. *)
Definition sample_world : World :=
  {| columns := columns_of [new_column; new_column; new_column];
     grid := sample_grid |}.

(** ** Further vocabulary and samples *)


(** The column after the values were assigned to [minWidth], one after
    the other. *)
Definition minWidth_assignments (values : list string) (c : Column) : Column :=
  fold_left (fun c v => set_minWidth v c) values c.

(** The values that [parseFloat] reads as a number. *)
Definition parsed_values (values : list string) : list string :=
  List.filter (fun v => negb (JS.parseFloat_isNaN v)) values.

(** Every column was created after its parent: identities grow from a
    parent to its children, so the parents of a column form a chain that
    ends. *)
Definition parents_first (cols : Columns) : Prop :=
  forall r p, parent (cols r) = Some p -> (p < r)%nat.

(** The slots the targets of a resize stand for, added up. *)
Definition total_span (l : list MRLResizeColumnInfo) : Z :=
  fold_right (fun t acc => spanUsed t + acc) 0 l.

(** No two neighbours of the list are columns of the same [field]. *)
Fixpoint distinct_neighbours (field : nat -> option string) (l : list MRLResizeColumnInfo)
  : Prop :=
  match l with
  | a :: (b :: _) as rest =>
      same_field field (target a) (target b) = false /\ distinct_neighbours field rest
  | _ => True
  end.

(** Slot [k] of the array lies under a column that starts at [s] and
    ends before [e] (both counted from 1). *)
Definition in_range (s e k : Z) : Prop := s <= k + 1 < e.

(** A host like [still_host] for which every parent is a column layout. *)
Definition layout_host : Host.t :=
  {| Host.endEdit := fun _ w => w;
     Host.pinnedChange_emit := fun _ _ w => w;
     Host.onColumnPinning_emit := fun _ i _ w => (i, w);
     Host._moveColumns := fun _ _ w => w;
     Host.reinitPinStates := fun w => w;
     Host.resetCaches := fun w => w;
     Host.notifyChanges := fun w => w;
     Host.populateVisibleIndexes := fun w => w;
     Host.refreshExpressions := fun w => w;
     Host.pinnedColumns := fun w => Grid._pinnedColumns (grid w);
     Host.gridColumns := fun w => (Grid._pinnedColumns (grid w) ++ Grid._unpinnedColumns (grid w))%list;
     Host.columnLayout := fun _ _ => true;
     Host.topLevelParent_pin := fun _ _ w => (false, w);
     Host.topLevelParent_unpin := fun _ _ w => (false, w) |}.

(** A column as the template declares it inside the layout [p]. *)
Definition declared_in (p : nat) (cs ce : option Z) (w : option string) : Column :=
  let c := declared cs ce w in
  {| colStart := colStart c; colEnd := colEnd c; rowStart := rowStart c; rowEnd := rowEnd c;
     _width := _width c; defaultWidth := defaultWidth c; widthSetByUser := widthSetByUser c;
     _calcWidth := _calcWidth c; calcPixelWidth := calcPixelWidth c;
     _defaultMinWidth := _defaultMinWidth c; _hidden := _hidden c; _pinned := _pinned c;
     _unpinnedIndex := _unpinnedIndex c; parent := Some p |}.

(** A layout, column 0, with three children: column 1 over the slots 1
    to 3 without width, column 2 of 50 pixels in slot 1 and column 3 in
    slot 3.  Nothing is left in slot 2. *)
Definition gapped_world : World :=
  {| columns := columns_of [new_column;
                            declared_in 0 (Some 1) (Some 4) None;
                            declared_in 0 (Some 1) (Some 2) (Some "50px");
                            declared_in 0 (Some 3) (Some 4) None];
     grid := sample_grid |}.

(** Three generations: column 2 is a child of column 1, a child of
    column 0. *)
Definition family : Columns :=
  columns_of [new_column;
              declared_in 0 (Some 1) None None;
              declared_in 1 (Some 1) None None].

(** The object [e] belongs in slot [i] of the array of [children]: its
    column is one of the children, has a [colStart], covers the slot, and
    the object ends where its column does. *)
Definition covers (cols : Columns) (children : list nat) (i : Z) (e : MRLColumnSizeInfo.t)
  : Prop :=
  let c := cols (MRLColumnSizeInfo.ref e) in
  MRLColumnSizeInfo.ref e ∈ children
  /\ truthyZ (colStart c) = true
  /\ num (colStart c) - 1 <= i < num (colStart c) - 1 + gridColumnSpan c
  /\ MRLColumnSizeInfo.colEnd e = num (colStart c) + gridColumnSpan c.

(** Every slot of the array holds an object that belongs there. *)
Definition covered (cols : Columns) (children : list nat) (a : ColumnSizes.t) : Prop :=
  forall i e, ColumnSizes.get a i = Some e -> covers cols children i e.

(** Every child that is placed ends after it starts. *)
Definition spans_positive (cols : Columns) (children : list nat) : Prop :=
  forall r, r ∈ children -> truthyZ (colStart (cols r)) = true -> 1 <= gridColumnSpan (cols r).

(** * Properties *)

(** ** Spans, [minWidth] and [width] *)

Lemma parseFloat_number_nonempty (s : string) :
  JS.parseFloat_isNaN s = false -> JS.string_truthy s = true.
Proof.
  destruct s as [|a s]; [discriminate | reflexivity].
Qed.

Lemma truthyZ_Some (x : option Z) (z : Z) :
  x = Some z -> z <> 0 -> truthyZ x = true /\ num x = z.
Proof.
  intros -> Hz. split; [|reflexivity].
  unfold truthyZ. apply negb_true_iff, Z.eqb_neq, Hz.
Qed.

Lemma truthyZ_unset (x : option Z) :
  x = None \/ x = Some 0 -> truthyZ x = false.
Proof.
  intros [-> | ->]; reflexivity.
Qed.

(** C6: the column span of a column is [colEnd - colStart] when both
    [colStart] and [colEnd] are set to a non-zero number, and 1 when either
    is undefined or 0; the row span is [rowEnd - rowStart] when both
    [rowStart] and [rowEnd] are set, and 1 otherwise. *)
Theorem spans_from_start_and_end (c : Column) :
  (forall s e, colStart c = Some s -> colEnd c = Some e -> s <> 0 -> e <> 0 ->
               gridColumnSpan c = e - s)
  /\ (colStart c = None \/ colStart c = Some 0 \/ colEnd c = None \/ colEnd c = Some 0 ->
      gridColumnSpan c = 1)
  /\ (forall s e, rowStart c = Some s -> rowEnd c = Some e -> s <> 0 -> e <> 0 ->
                  gridRowSpan c = e - s)
  /\ (rowStart c = None \/ rowStart c = Some 0 \/ rowEnd c = None \/ rowEnd c = Some 0 ->
      gridRowSpan c = 1).
Proof.
  repeat split.
  - intros s e Hs He Hs0 He0. unfold gridColumnSpan.
    destruct (truthyZ_Some _ _ Hs Hs0) as [-> ->].
    destruct (truthyZ_Some _ _ He He0) as [-> ->]. reflexivity.
  - intros H. unfold gridColumnSpan.
    destruct H as [H | [H | [H | H]]].
    + rewrite (truthyZ_unset (colStart c)) by auto. now rewrite andb_false_r.
    + rewrite (truthyZ_unset (colStart c)) by auto. now rewrite andb_false_r.
    + now rewrite (truthyZ_unset (colEnd c)) by auto.
    + now rewrite (truthyZ_unset (colEnd c)) by auto.
  - intros s e Hs He Hs0 He0. unfold gridRowSpan.
    destruct (truthyZ_Some _ _ Hs Hs0) as [-> ->].
    destruct (truthyZ_Some _ _ He He0) as [-> ->]. reflexivity.
  - intros H. unfold gridRowSpan.
    destruct H as [H | [H | [H | H]]].
    + rewrite (truthyZ_unset (rowStart c)) by auto. now rewrite andb_false_r.
    + rewrite (truthyZ_unset (rowStart c)) by auto. now rewrite andb_false_r.
    + now rewrite (truthyZ_unset (rowEnd c)) by auto.
    + now rewrite (truthyZ_unset (rowEnd c)) by auto.
Qed.

Lemma spans_from_start_and_end_witness :
  gridColumnSpan sample_child = 5 - 2 /\ gridRowSpan sample_child = 1.
Proof.
  destruct (spans_from_start_and_end sample_child) as (Hc & _ & _ & Hr).
  split.
  - apply Hc; [reflexivity | reflexivity | lia | lia].
  - apply Hr. right; right; left; reflexivity.
Defined.

(** C5: assigning to [minWidth] a string that [parseFloat] reads as NaN
    leaves the column, and so the value [minWidth] returns, as they were;
    assigning a string that parses to a number makes [minWidth] return
    exactly that string. *)
Theorem minWidth_guard (g : option Grid.t) (c : Column) (value : string) :
  (JS.parseFloat_isNaN value = true ->
   set_minWidth value c = c /\ minWidth g (set_minWidth value c) = minWidth g c)
  /\ (JS.parseFloat_isNaN value = false ->
      minWidth g (set_minWidth value c) = value).
Proof.
  unfold set_minWidth. split; intros H; rewrite H.
  - split; reflexivity.
  - unfold minWidth. cbn. now rewrite (parseFloat_number_nonempty _ H).
Qed.

Lemma minWidth_guard_witness :
  minWidth None (set_minWidth "abc" sample_child) = minWidth None sample_child
  /\ minWidth None (set_minWidth "15%" sample_child) = "15%".
Proof.
  destruct (minWidth_guard None sample_child "abc") as [Hnan _].
  destruct (minWidth_guard None sample_child "15%") as [_ Hnum].
  split.
  - apply Hnan. reflexivity.
  - apply Hnum. reflexivity.
Defined.

(** The fields [cacheCalcWidth] leaves alone. *)
Lemma cacheCalcWidth_width (g : Grid.t) (c : Column) :
  _width (cacheCalcWidth g c) = _width c
  /\ widthSetByUser (cacheCalcWidth g c) = widthSetByUser c
  /\ defaultWidth (cacheCalcWidth g c) = defaultWidth c.
Proof. repeat split. Qed.

(** C9: a truthy value assigned to [width] is stored with ['px'] appended
    when it is a number or a string of digits only, and as it is
    otherwise; [widthSetByUser] becomes true and [width] returns what
    was stored.  A falsy value changes nothing. *)
Theorem width_setter (g : option Grid.t) (c : Column) (value : JS.value) :
  (JS.ToBoolean value = true ->
   _width (set_width g value c)
   = Some (if plain_number value then (JS.ToString value ++ "px")%string
           else JS.ToString value)
   /\ widthSetByUser (set_width g value c) = Some true
   /\ width (set_width g value c) = _width (set_width g value c))
  /\ (JS.ToBoolean value = false -> set_width g value c = c).
Proof.
  unfold set_width. split; intros H; rewrite H; [|reflexivity].
  assert (Hw : forall c', widthSetByUser c' = Some true -> width c' = _width c').
  { intros c' Hc. unfold width. now rewrite Hc. }
  destruct g as [g|]; (split; [reflexivity | split; [reflexivity | now apply Hw]]).
Qed.

Lemma width_setter_witness :
  _width (set_width None (JS.Str "100") sample_child) = Some "100px"
  /\ _width (set_width None (JS.Str "25%") sample_child) = Some "25%"
  /\ set_width None (JS.Str "") sample_child = sample_child.
Proof.
  destruct (width_setter None sample_child (JS.Str "100")) as [H1 _].
  destruct (width_setter None sample_child (JS.Str "25%")) as [H2 _].
  destruct (width_setter None sample_child (JS.Str "")) as [_ H3].
  split; [|split].
  - apply H1. reflexivity.
  - apply H2. reflexivity.
  - apply H3. reflexivity.
Defined.

(** ** The flattening loop ends *)

Lemma fold_max_ge (b : Z) (l : list Z) :
  b <= fold_right Z.max b l /\ Forall (fun x => x <= fold_right Z.max b l) l.
Proof.
  induction l as [|x l [IHb IHl]]; cbn.
  - split; [lia | constructor].
  - split; [lia|]. constructor; [lia|].
    eapply Forall_impl; [exact IHl|]. cbn. intros; lia.
Qed.

Lemma within_flatten_bound (a : ColumnSizes.t) :
  within (flatten_bound a) a /\ 0 <= flatten_bound a.
Proof.
  unfold within, flatten_bound.
  destruct (fold_max_ge (Z.max 0 (ColumnSizes.length a))
              (map MRLColumnSizeInfo.colEnd (ColumnSizes.objects a))) as [Hb Hl].
  repeat split; try lia.
  rewrite Forall_map in Hl. exact Hl.
Qed.

Lemma within_set_new (B : Z) (a : ColumnSizes.t) (i : Z) (e : MRLColumnSizeInfo.t) :
  within B a -> MRLColumnSizeInfo.colEnd e <= B -> i + 1 <= B ->
  within B (ColumnSizes.set_new a i e).
Proof.
  intros [Hlen Hobj] He Hi. split; cbn.
  - destruct (ColumnSizes.is_index i); lia.
  - apply Forall_app. split; [exact Hobj | repeat constructor; exact He].
Qed.

Lemma fill_span_within (B : Z) (cur : MRLColumnSizeInfo.t) (n : nat) :
  MRLColumnSizeInfo.colEnd cur <= B ->
  forall i j a, within B a ->
    within B (snd (fill_span n i j cur a)) /\ j <= fst (fill_span n i j cur a).
Proof.
  intros Hcur. induction n as [|n IH]; intros i j a Ha; cbn.
  - split; [exact Ha | lia].
  - destruct ((j <? MRLColumnSizeInfo.colSpan cur)
              && (i + j + 1 <? MRLColumnSizeInfo.colEnd cur)) eqn:Hc; cbn; [|split; [exact Ha | lia]].
    destruct (stops_at cur (ColumnSizes.get a (i + j))); cbn; [split; [exact Ha | lia]|].
    apply andb_true_iff in Hc as [_ Hc]. apply Z.ltb_lt in Hc.
    destruct (IH i (j + 1) (ColumnSizes.set_new a (i + j) (flattened cur))) as [H1 H2].
    + apply within_set_new; [exact Ha | exact Hcur | lia].
    + split; [exact H1 | lia].
Qed.

Lemma within_update (B : Z) (a : ColumnSizes.t) (l : nat) (cur : MRLColumnSizeInfo.t) :
  within B a -> MRLColumnSizeInfo.colEnd cur <= B ->
  within B (ColumnSizes.update a l (flattened cur)).
Proof.
  intros [Hlen Hobj] Hcur. split; [exact Hlen|]. cbn.
  apply Forall_insert; [exact Hobj | exact Hcur].
Qed.

Lemma flatten_from_total (B : Z) (fuel : nat) :
  forall i a, within B a -> B - i <= Z.of_nat fuel -> is_Some (flatten_from fuel i a).
Proof.
  induction fuel as [|fuel IH]; intros i a Ha Hfuel.
  - cbn. destruct (i <? ColumnSizes.length a) eqn:Hi; [|eauto].
    apply Z.ltb_lt in Hi. destruct Ha as [Hlen _]. lia.
  - cbn [flatten_from]. destruct (i <? ColumnSizes.length a) eqn:Hi; [|eauto].
    destruct (ColumnSizes.slots a !! i) as [l|] eqn:Hl; [|apply IH; [exact Ha | lia]].
    destruct (ColumnSizes.objects a !! l) as [cur|] eqn:Hcur; [|apply IH; [exact Ha | lia]].
    destruct (1 <? MRLColumnSizeInfo.colSpan cur); [|apply IH; [exact Ha | lia]].
    assert (Hend : MRLColumnSizeInfo.colEnd cur <= B).
    { destruct Ha as [_ Hobj]. rewrite Forall_lookup in Hobj. exact (Hobj _ _ Hcur). }
    pose proof (fill_span_within B cur
                  (Z.to_nat (MRLColumnSizeInfo.colSpan cur - 1)) Hend i 1 a Ha) as [Hw Hj].
    destruct (fill_span _ i 1 cur a) as [j a1]. cbn in Hw, Hj.
    apply IH; [apply within_update; assumption | lia].
Qed.

Lemma flatten_total (a : ColumnSizes.t) : is_Some (flatten a).
Proof.
  destruct (within_flatten_bound a) as [Hw H0].
  apply (flatten_from_total (flatten_bound a)); [exact Hw | lia].
Qed.

(** ** Reading [calcWidth] only fills the cache *)

Lemma same_but_cache_refl (c : Column) : same_but_cache c c.
Proof. now destruct c. Qed.

Lemma same_but_cache_trans (c1 c2 c3 : Column) :
  same_but_cache c1 c2 -> same_but_cache c2 c3 -> same_but_cache c1 c3.
Proof. unfold same_but_cache. intros H12 H23. rewrite H23, H12. reflexivity. Qed.

Lemma cacheCalcWidth_with_calc (g : Grid.t) (c : Column) (cw : JS.value) (px : option float) :
  _calcWidth (cacheCalcWidth g (with_calc c cw px)) = _calcWidth (cacheCalcWidth g c).
Proof. reflexivity. Qed.

Lemma getCalcWidth_cache (g : Grid.t) (c : Column) :
  same_but_cache c (snd (getCalcWidth g c)).
Proof.
  unfold getCalcWidth.
  destruct (calcWidth_cached c); cbn; [apply same_but_cache_refl | reflexivity].
Qed.

Lemma getCalcWidth_again (g : Grid.t) (c : Column) :
  calcWidth g (snd (getCalcWidth g c)) = calcWidth g c.
Proof.
  unfold calcWidth, getCalcWidth.
  destruct (calcWidth_cached c) eqn:Hc; cbn [fst snd].
  - now rewrite Hc.
  - destruct (calcWidth_cached (cacheCalcWidth g c)); reflexivity.
Qed.

Lemma cache_only_refl (g : Grid.t) (cols : Columns) : cache_only g cols cols.
Proof. intros r. split; [apply same_but_cache_refl | reflexivity]. Qed.

Lemma cache_only_trans (g : Grid.t) (c1 c2 c3 : Columns) :
  cache_only g c1 c2 -> cache_only g c2 c3 -> cache_only g c1 c3.
Proof.
  intros H12 H23 r. destruct (H12 r) as [Ha Hb], (H23 r) as [Hc Hd]. split.
  - eapply same_but_cache_trans; eassumption.
  - congruence.
Qed.

Lemma set_column_same (r : nat) (c : Column) (cols : Columns) : set_column r c cols r = c.
Proof. unfold set_column. now rewrite Nat.eqb_refl. Qed.

Lemma set_column_other (r r' : nat) (c : Column) (cols : Columns) :
  r' <> r -> set_column r c cols r' = cols r'.
Proof. intros H. unfold set_column. now apply Nat.eqb_neq in H as ->. Qed.

(** What [size_info] returns and what it leaves behind. *)
Lemma size_info_spec (g : Grid.t) (r : nat) (cols : Columns) :
  fst (size_info g r cols) = info_of g r (cols r)
  /\ cache_only g cols (snd (size_info g r cols))
  /\ forall r', r' <> r -> snd (size_info g r cols) r' = cols r'.
Proof.
  unfold size_info, info_of.
  destruct (truthyB (widthSetByUser (cols r)) || Grid.columnWidthSetByUser g) eqn:Hw.
  - pose proof (getCalcWidth_cache g (cols r)) as Hc.
    pose proof (getCalcWidth_again g (cols r)) as Ha.
    unfold calcWidth in *.
    destruct (getCalcWidth g (cols r)) as [cw col'] eqn:Hg. cbn [fst snd] in *.
    split; [reflexivity|]. split.
    + intros r'. destruct (Nat.eq_dec r' r) as [->|Hne].
      * rewrite set_column_same. split; [exact Hc|]. unfold calcWidth. now rewrite Ha, Hg.
      * rewrite set_column_other by exact Hne. split; [apply same_but_cache_refl | reflexivity].
    + intros r' Hne. now apply set_column_other.
  - cbn [fst snd]. split; [reflexivity|]. split; [apply cache_only_refl | reflexivity].
Qed.

Lemma size_info_pair (g : Grid.t) (r : nat) (cols : Columns) :
  size_info g r cols = (info_of g r (cols r), snd (size_info g r cols)).
Proof.
  destruct (size_info_spec g r cols) as [H _]. rewrite <- H. now destruct (size_info g r cols).
Qed.

Lemma same_but_cache_fields (c c' : Column) :
  same_but_cache c c' ->
  colStart c' = colStart c /\ colEnd c' = colEnd c
  /\ rowStart c' = rowStart c /\ rowEnd c' = rowEnd c
  /\ widthSetByUser c' = widthSetByUser c /\ width c' = width c
  /\ hidden c' = hidden c /\ pinned c' = pinned c /\ parent c' = parent c
  /\ gridColumnSpan c' = gridColumnSpan c.
Proof. intros ->. repeat split. Qed.

Lemma info_of_cache_only (g : Grid.t) (cols cols' : Columns) (r : nat) :
  cache_only g cols cols' -> info_of g r (cols' r) = info_of g r (cols r).
Proof.
  intros H. destruct (H r) as [Hc Hw].
  destruct (same_but_cache_fields _ _ Hc) as (H1 & _ & _ & _ & H5 & _ & _ & _ & _ & H10).
  unfold info_of. now rewrite H1, H5, H10, Hw.
Qed.

(** The state kept while the children are visited. *)
Lemma spread_new_cache (g : Grid.t) (r : nat) (n : nat) :
  forall i (cols : Columns) (a : ColumnSizes.t),
    cache_only g cols (fst (spread_new g n i r (cols, a)))
    /\ forall r', r' <> r -> fst (spread_new g n i r (cols, a)) r' = cols r'.
Proof.
  induction n as [|n IH]; intros i cols a; cbn [spread_new fst snd].
  - split; [apply cache_only_refl | reflexivity].
  - destruct (ColumnSizes.open_slot a i); [|split; [apply cache_only_refl | reflexivity]].
    rewrite size_info_pair.
    destruct (size_info_spec g r cols) as (_ & Hc & Hf).
    destruct (IH (i + 1) (snd (size_info g r cols))
                 (ColumnSizes.set_new a i (info_of g r (cols r)))) as [Hc' Hf'].
    split.
    + eapply cache_only_trans; eassumption.
    + intros r' Hne. rewrite Hf' by exact Hne. now apply Hf.
Qed.

Lemma place_cache (g : Grid.t) (cols : Columns) (a : ColumnSizes.t) (r : nat) :
  cache_only g cols (fst (place g (cols, a) r))
  /\ forall r', r' <> r -> fst (place g (cols, a) r) r' = cols r'.
Proof.
  assert (Hrefl : cache_only g cols cols /\ forall r', r' <> r -> cols r' = cols r')
    by (split; [apply cache_only_refl | reflexivity]).
  destruct (size_info_spec g r cols) as (_ & Hc & Hf).
  unfold place.
  destruct (negb (truthyZ (colStart (cols r)))); [exact Hrefl|].
  destruct (ColumnSizes.get a _) as [old|].
  - destruct (_ || _).
    + rewrite size_info_pair. cbn [fst]. split; assumption.
    + destruct (_ && _); [apply spread_new_cache | exact Hrefl].
  - rewrite size_info_pair. cbn [fst]. split; assumption.
Qed.

Lemma fold_place_cache (g : Grid.t) (children : list nat) :
  forall (cols : Columns) (a : ColumnSizes.t),
    cache_only g cols (fst (fold_left (place g) children (cols, a)))
    /\ forall r', r' ∉ children -> fst (fold_left (place g) children (cols, a)) r' = cols r'.
Proof.
  induction children as [|r children IH]; intros cols a; cbn [fold_left].
  - split; [apply cache_only_refl | reflexivity].
  - destruct (place_cache g cols a r) as [Hc Hf].
    destruct (place g (cols, a) r) as [cols1 a1] eqn:Hp. cbn [fst] in *.
    destruct (IH cols1 a1) as [Hc' Hf']. split.
    + eapply cache_only_trans; eassumption.
    + intros r' Hr'. apply not_elem_of_cons in Hr' as [Hne Hnot].
      rewrite Hf' by exact Hnot. now apply Hf.
Qed.

(** ** The array is a function of what the columns show *)

Lemma agree_info_of (g : Grid.t) (r : nat) (c1 c2 : Column) :
  agree g c1 c2 -> info_of g r c1 = info_of g r c2.
Proof.
  intros (H1 & H2 & _ & _ & H5 & H6). unfold info_of, gridColumnSpan.
  now rewrite H1, H2, H5, H6.
Qed.

Lemma agree_cache_only (g : Grid.t) (cols1 cols1' cols2 cols2' : Columns) (r : nat) :
  cache_only g cols1 cols1' -> cache_only g cols2 cols2' ->
  agree g (cols1 r) (cols2 r) -> agree g (cols1' r) (cols2' r).
Proof.
  intros Hc1 Hc2 (H1 & H2 & H3 & H4 & H5 & H6).
  destruct (Hc1 r) as [Hs1 Hw1], (Hc2 r) as [Hs2 Hw2].
  destruct (same_but_cache_fields _ _ Hs1) as (A1 & A2 & A3 & A4 & A5 & _).
  destruct (same_but_cache_fields _ _ Hs2) as (B1 & B2 & B3 & B4 & B5 & _).
  unfold agree. rewrite A1, A2, A3, A4, A5, B1, B2, B3, B4, B5, Hw1, Hw2.
  repeat split; assumption.
Qed.

Lemma spread_new_agree (g : Grid.t) (r : nat) (n : nat) :
  forall i (cols1 cols2 : Columns) (a : ColumnSizes.t), agree g (cols1 r) (cols2 r) ->
    snd (spread_new g n i r (cols1, a)) = snd (spread_new g n i r (cols2, a)).
Proof.
  induction n as [|n IH]; intros i cols1 cols2 a Hag; cbn [spread_new fst snd]; [reflexivity|].
  destruct (ColumnSizes.open_slot a i); [|reflexivity].
  destruct (size_info_spec g r cols1) as (Hf1 & Hc1 & _).
  destruct (size_info_spec g r cols2) as (Hf2 & Hc2 & _).
  destruct (size_info g r cols1) as [e1 k1], (size_info g r cols2) as [e2 k2].
  cbn [fst snd] in *. subst e1 e2. rewrite (agree_info_of g r _ _ Hag).
  apply IH. eapply agree_cache_only; eassumption.
Qed.

Lemma place_agree (g : Grid.t) (cols1 cols2 : Columns) (a : ColumnSizes.t) (r : nat) :
  agree g (cols1 r) (cols2 r) ->
  snd (place g (cols1, a) r) = snd (place g (cols2, a) r).
Proof.
  intros Hag. pose proof Hag as (H1 & H2 & _ & _ & H5 & _).
  assert (Hspan : gridColumnSpan (cols1 r) = gridColumnSpan (cols2 r))
    by (unfold gridColumnSpan; now rewrite H1, H2).
  destruct (size_info_spec g r cols1) as (Hf1 & _).
  destruct (size_info_spec g r cols2) as (Hf2 & _).
  rewrite (agree_info_of g r _ _ Hag) in Hf1.
  unfold place. rewrite H1, H5, Hspan.
  destruct (size_info g r cols1) as [e1 k1], (size_info g r cols2) as [e2 k2].
  cbn [fst snd] in Hf1, Hf2. subst e1 e2.
  destruct (negb (truthyZ (colStart (cols2 r)))); [reflexivity|].
  destruct (ColumnSizes.get a _) as [old|]; [|reflexivity].
  destruct (_ || _); [reflexivity|].
  destruct (_ && _); [|reflexivity].
  now apply spread_new_agree.
Qed.

Lemma fold_place_agree (g : Grid.t) (children : list nat) :
  forall (cols1 cols2 : Columns) (a : ColumnSizes.t),
    (forall r, r ∈ children -> agree g (cols1 r) (cols2 r)) ->
    snd (fold_left (place g) children (cols1, a))
    = snd (fold_left (place g) children (cols2, a)).
Proof.
  induction children as [|r children IH]; intros cols1 cols2 a Hag; cbn [fold_left]; [reflexivity|].
  pose proof (place_agree g cols1 cols2 a r (Hag r (list_elem_of_here _ _))) as Hsnd.
  pose proof (place_cache g cols1 a r) as [Hc1 _].
  pose proof (place_cache g cols2 a r) as [Hc2 _].
  destruct (place g (cols1, a) r) as [c1 a1] eqn:E1.
  destruct (place g (cols2, a) r) as [c2 a2] eqn:E2.
  cbn [fst snd] in Hsnd, Hc1, Hc2. subst a2. apply IH.
  intros r' Hr'. eapply agree_cache_only; [exact Hc1 | exact Hc2 |].
  apply Hag. now apply list_elem_of_further.
Qed.

(** ** Reading and writing the array *)

Lemma get_set_new_same (a : ColumnSizes.t) (i : Z) (e : MRLColumnSizeInfo.t) :
  ColumnSizes.get (ColumnSizes.set_new a i e) i = Some e.
Proof.
  unfold ColumnSizes.get, ColumnSizes.set_new, ColumnSizes.set_slot. cbn.
  rewrite lookup_insert_eq. apply list_lookup_middle. reflexivity.
Qed.

Lemma get_set_new_other (a : ColumnSizes.t) (i k : Z) (e : MRLColumnSizeInfo.t) :
  well_formed a -> k <> i ->
  ColumnSizes.get (ColumnSizes.set_new a i e) k = ColumnSizes.get a k.
Proof.
  intros Hwf Hne. unfold ColumnSizes.get, ColumnSizes.set_new, ColumnSizes.set_slot. cbn.
  rewrite lookup_insert_ne by congruence.
  destruct (ColumnSizes.slots a !! k) as [l|] eqn:Hl; [|reflexivity].
  apply lookup_app_l. eapply Hwf, Hl.
Qed.

Lemma well_formed_set_new (a : ColumnSizes.t) (i : Z) (e : MRLColumnSizeInfo.t) :
  well_formed a -> well_formed (ColumnSizes.set_new a i e).
Proof.
  intros Hwf k l. unfold ColumnSizes.set_new, ColumnSizes.set_slot. cbn.
  rewrite length_app. cbn. rewrite lookup_insert. case_decide.
  - intros [= <-]. lia.
  - intros Hl. apply Hwf in Hl. lia.
Qed.

Lemma well_formed_copy_slot (a : ColumnSizes.t) (k i : Z) :
  well_formed a -> well_formed (ColumnSizes.copy_slot a k i).
Proof.
  intros Hwf. unfold ColumnSizes.copy_slot.
  destruct (ColumnSizes.slots a !! k) as [l|] eqn:Hl; [|exact Hwf].
  intros k' l'. cbn. rewrite lookup_insert. case_decide.
  - intros [= <-]. eapply Hwf, Hl.
  - apply Hwf.
Qed.

Lemma objects_copy_slot (a : ColumnSizes.t) (k i : Z) :
  ColumnSizes.objects (ColumnSizes.copy_slot a k i) = ColumnSizes.objects a.
Proof. unfold ColumnSizes.copy_slot. now destruct (ColumnSizes.slots a !! k). Qed.

Lemma well_formed_update (a : ColumnSizes.t) (l : nat) (e : MRLColumnSizeInfo.t) :
  well_formed a -> well_formed (ColumnSizes.update a l e).
Proof. intros Hwf k l'. cbn. rewrite length_insert. apply Hwf. Qed.

Lemma well_formed_empty : well_formed ColumnSizes.empty.
Proof. intros k l. cbn. now rewrite lookup_empty. Qed.

(** ** The first pass: one object per visit, built from its column *)

Section FirstPass.

Variable g : Grid.t.
Variable cols0 : Columns.

Lemma original_info_of (cols : Columns) (r : nat) :
  cache_only g cols0 cols -> original g cols0 (info_of g r (cols r)).
Proof.
  intros Hc. unfold original. cbn [MRLColumnSizeInfo.ref info_of].
  exact (info_of_cache_only g cols0 cols r Hc).
Qed.

Lemma first_pass_set_new (cols : Columns) (a : ColumnSizes.t) (r : nat) (i : Z) :
  first_pass_inv g cols0 (cols, a) ->
  first_pass_inv g cols0 (snd (size_info g r cols), ColumnSizes.set_new a i (info_of g r (cols r))).
Proof.
  intros (Hc & Hwf & Hobj). cbn [fst snd] in *.
  destruct (size_info_spec g r cols) as (_ & Hc' & _).
  split; [eapply cache_only_trans; eassumption|].
  split; [now apply well_formed_set_new|]. cbn.
  apply Forall_app. split; [exact Hobj|].
  repeat constructor. now apply original_info_of.
Qed.

Lemma spread_old_inv (n : nat) :
  forall i k (a : ColumnSizes.t),
    well_formed a ->
    well_formed (spread_old n i k a)
    /\ ColumnSizes.objects (spread_old n i k a) = ColumnSizes.objects a.
Proof.
  induction n as [|n IH]; intros i k a Hwf; cbn [spread_old]; [now split|].
  destruct (ColumnSizes.open_slot a i); [|now split].
  destruct (IH (i + 1) k (ColumnSizes.copy_slot a k i)) as [H1 H2].
  - now apply well_formed_copy_slot.
  - split; [exact H1|]. now rewrite H2, objects_copy_slot.
Qed.

Lemma spread_new_inv (r : nat) (n : nat) :
  forall i (cols : Columns) (a : ColumnSizes.t),
    first_pass_inv g cols0 (cols, a) -> first_pass_inv g cols0 (spread_new g n i r (cols, a)).
Proof.
  induction n as [|n IH]; intros i cols a Hinv; cbn [spread_new fst snd]; [exact Hinv|].
  destruct (ColumnSizes.open_slot a i); [|exact Hinv].
  pose proof (first_pass_set_new cols a r i Hinv) as Hnew.
  destruct (size_info_spec g r cols) as (Hf & _).
  destruct (size_info g r cols) as [e k]. cbn [fst snd] in *. subst e.
  now apply IH.
Qed.

Lemma place_inv (cols : Columns) (a : ColumnSizes.t) (r : nat) :
  first_pass_inv g cols0 (cols, a) -> first_pass_inv g cols0 (place g (cols, a) r).
Proof.
  intros Hinv. unfold place.
  destruct (negb (truthyZ (colStart (cols r)))); [exact Hinv|].
  assert (Hnew : forall a' i,
             first_pass_inv g cols0 (cols, a') ->
             first_pass_inv g cols0 (let '(e, cols') := size_info g r cols in
                             (cols', ColumnSizes.set_new a' i e))).
  { intros a' i Ha'. pose proof (first_pass_set_new cols a' r i Ha') as Hn.
    destruct (size_info_spec g r cols) as (Hf & _).
    destruct (size_info g r cols) as [e k]. cbn [fst snd] in *. now subst e. }
  destruct (ColumnSizes.get a _) as [old|]; [|now apply Hnew].
  destruct (_ || _).
  - apply Hnew. destruct (_ && _); [|exact Hinv].
    destruct Hinv as (Hc & Hwf & Hobj). cbn [fst snd] in *.
    destruct (spread_old_inv (Z.to_nat (MRLColumnSizeInfo.colEnd old - 1
                                        - (num (colStart (cols r)) - 1 + gridColumnSpan (cols r))))
                (num (colStart (cols r)) - 1 + gridColumnSpan (cols r))
                (num (colStart (cols r)) - 1) a Hwf) as [H1 H2].
    split; [exact Hc|]. split; [exact H1|]. cbn [snd]. now rewrite H2.
  - destruct (_ && _); [now apply spread_new_inv | exact Hinv].
Qed.

Lemma fold_place_inv (children : list nat) :
  forall st : Columns * ColumnSizes.t,
    first_pass_inv g cols0 st -> first_pass_inv g cols0 (fold_left (place g) children st).
Proof.
  induction children as [|r children IH]; intros [cols a] Hinv; cbn [fold_left]; [exact Hinv|].
  apply IH. now apply place_inv.
Qed.

End FirstPass.

(** ** The second pass: flattening *)

Section SecondPass.

Variable g : Grid.t.
Variable cols0 : Columns.

Lemma flattened_built (cur : MRLColumnSizeInfo.t) :
  built g cols0 cur -> 1 < MRLColumnSizeInfo.colSpan cur -> built g cols0 (flattened cur).
Proof.
  intros [Ho | (o & _ & _ & ->)] Hspan.
  - right. exists cur. auto.
  - cbn in Hspan. lia.
Qed.

(** What the inner loop leaves: the slots before [i + j] and the objects
    already there are untouched, and the slots it passed over hold
    columns of span 1. *)
Lemma fill_span_spec (cur : MRLColumnSizeInfo.t) (n : nat) :
  built g cols0 (flattened cur) ->
  forall i j (a : ColumnSizes.t),
    well_formed a -> Forall (built g cols0) (ColumnSizes.objects a) ->
    let a' := snd (fill_span n i j cur a) in
    let j' := fst (fill_span n i j cur a) in
    well_formed a'
    /\ Forall (built g cols0) (ColumnSizes.objects a')
    /\ j <= j'
    /\ (forall k, k < i + j -> ColumnSizes.slots a' !! k = ColumnSizes.slots a !! k)
    /\ (forall l e, ColumnSizes.objects a !! l = Some e -> ColumnSizes.objects a' !! l = Some e)
    /\ (forall k e, i + j <= k < i + j' -> ColumnSizes.get a' k = Some e ->
                    MRLColumnSizeInfo.colSpan e <= 1).
Proof.
  intros Hcur. induction n as [|n IH]; intros i j a Hwf Hobj; cbn [fill_span].
  - cbn; repeat split; auto; intros; lia.
  - assert (Hstop : let a' := a in let j' := j in
              well_formed a' /\ Forall (built g cols0) (ColumnSizes.objects a') /\ j <= j'
              /\ (forall k, k < i + j -> ColumnSizes.slots a' !! k = ColumnSizes.slots a !! k)
              /\ (forall l e, ColumnSizes.objects a !! l = Some e ->
                              ColumnSizes.objects a' !! l = Some e)
              /\ (forall k e, i + j <= k < i + j' -> ColumnSizes.get a' k = Some e ->
                              MRLColumnSizeInfo.colSpan e <= 1)).
    { cbn; repeat split; auto; intros; lia. }
    destruct (_ && _); [|exact Hstop].
    destruct (stops_at cur _); [exact Hstop|]. clear Hstop.
    set (a1 := ColumnSizes.set_new a (i + j) (flattened cur)).
    assert (Hwf1 : well_formed a1) by now apply well_formed_set_new.
    assert (Hobj1 : Forall (built g cols0) (ColumnSizes.objects a1)).
    { cbn. apply Forall_app. split; [exact Hobj | constructor; [exact Hcur | constructor]]. }
    destruct (IH i (j + 1) a1 Hwf1 Hobj1) as (H1 & H2 & H3 & H4 & H5 & H6).
    cbn zeta. split; [exact H1|]. split; [exact H2|]. split; [lia|].
    split; [|split].
    + intros k Hk. rewrite H4 by lia. cbn. apply lookup_insert_ne. lia.
    + intros l e Hl. apply H5. cbn. now apply lookup_app_l_Some.
    + intros k e Hk Hget. destruct (Z.eq_dec k (i + j)) as [->|Hne].
      * assert (Hsame : ColumnSizes.get (snd (fill_span n i (j + 1) cur a1)) (i + j)
                        = Some (flattened cur)).
        { pose proof (get_set_new_same a (i + j) (flattened cur)) as Hg.
          fold a1 in Hg. unfold ColumnSizes.get in Hg |- *.
          rewrite H4 by lia.
          destruct (ColumnSizes.slots a1 !! (i + j)) as [l|]; [|discriminate].
          now apply H5. }
        rewrite Hsame in Hget. injection Hget as <-. cbn. lia.
      * apply (H6 k e); [lia | exact Hget].
Qed.

Lemma get_update (a : ColumnSizes.t) (l : nat) (e x : MRLColumnSizeInfo.t) (k : Z) :
  ColumnSizes.get (ColumnSizes.update a l e) k = Some x ->
  x = e \/ ColumnSizes.get a k = Some x.
Proof.
  unfold ColumnSizes.get. cbn.
  destruct (ColumnSizes.slots a !! k) as [l'|]; [|discriminate].
  destruct (Nat.eq_dec l l') as [<-|Hne].
  - intros H. apply list_lookup_insert_Some in H as [(_ & -> & _) | (Hne & H)]; auto.
  - rewrite list_lookup_insert_ne by exact Hne. auto.
Qed.

Lemma flat_below_mono (i i' : Z) (a : ColumnSizes.t) :
  i' <= i -> flat_below i a -> flat_below i' a.
Proof. intros Hle H k e Hk. apply H. lia. Qed.

Lemma flat_below_next (i : Z) (a : ColumnSizes.t) :
  flat_below i a ->
  (forall e, ColumnSizes.get a i = Some e -> MRLColumnSizeInfo.colSpan e <= 1) ->
  flat_below (i + 1) a.
Proof.
  intros H Hi k e Hk Hget. destruct (Z.eq_dec k i) as [->|Hne]; [now apply Hi|].
  apply (H k e); [lia | exact Hget].
Qed.

Lemma flatten_from_inv (fuel : nat) :
  forall i (a a' : ColumnSizes.t),
    0 <= i -> second_pass_inv g cols0 i a -> flatten_from fuel i a = Some a' ->
    second_pass_inv g cols0 (ColumnSizes.length a') a'.
Proof.
  induction fuel as [|fuel IH]; intros i a a' Hi (Hwf & Hobj & Hflat).
  - cbn. destruct (i <? ColumnSizes.length a) eqn:Hlt; [discriminate|].
    intros [= <-]. apply Z.ltb_ge in Hlt.
    split; [exact Hwf|]. split; [exact Hobj|]. now apply (flat_below_mono i).
  - cbn [flatten_from]. destruct (i <? ColumnSizes.length a) eqn:Hlt.
    2:{ intros [= <-]. apply Z.ltb_ge in Hlt.
        split; [exact Hwf|]. split; [exact Hobj|]. now apply (flat_below_mono i). }
    assert (Hskip : (forall e, ColumnSizes.get a i = Some e -> MRLColumnSizeInfo.colSpan e <= 1) ->
                    flatten_from fuel (i + 1) a = Some a' ->
                    second_pass_inv g cols0 (ColumnSizes.length a') a').
    { intros He. apply IH; [lia|]. split; [exact Hwf|]. split; [exact Hobj|].
      now apply flat_below_next. }
    destruct (ColumnSizes.slots a !! i) as [l|] eqn:Hl.
    2:{ apply Hskip. unfold ColumnSizes.get. now rewrite Hl. }
    destruct (ColumnSizes.objects a !! l) as [cur|] eqn:Hcur.
    2:{ apply Hskip. unfold ColumnSizes.get. now rewrite Hl, Hcur. }
    destruct (1 <? MRLColumnSizeInfo.colSpan cur) eqn:Hspan.
    2:{ apply Hskip. unfold ColumnSizes.get. rewrite Hl, Hcur. intros e [= <-].
        apply Z.ltb_ge in Hspan. exact Hspan. }
    apply Z.ltb_lt in Hspan.
    assert (Hb : built g cols0 (flattened cur)).
    { apply flattened_built; [|exact Hspan]. rewrite Forall_lookup in Hobj. exact (Hobj _ _ Hcur). }
    pose proof (fill_span_spec cur (Z.to_nat (MRLColumnSizeInfo.colSpan cur - 1)) Hb i 1 a Hwf Hobj)
      as (H1 & H2 & H3 & H4 & H5 & H6).
    destruct (fill_span _ i 1 cur a) as [j a1]. cbn [fst snd] in *.
    apply IH; [lia|].
    split; [now apply well_formed_update|].
    split; [cbn; now apply Forall_insert|].
    intros k e Hk Hget.
    destruct (Z.eq_dec k i) as [->|Hne].
    + unfold ColumnSizes.get in Hget. cbn in Hget. rewrite H4, Hl in Hget by lia.
      rewrite list_lookup_insert_eq in Hget.
      * injection Hget as <-. cbn. lia.
      * apply lookup_lt_Some with cur. now apply H5.
    + apply get_update in Hget as [-> | Hget]; [cbn; lia|].
      destruct (Z_lt_le_dec k i) as [Hlow | Hhigh].
      * apply (Hflat k e); [lia|].
        unfold ColumnSizes.get in Hget |- *. rewrite H4 in Hget by lia.
        destruct (ColumnSizes.slots a !! k) as [l'|] eqn:Hl'; [|discriminate].
        destruct (lookup_lt_is_Some_2 (ColumnSizes.objects a) l') as [e' He'].
        { eapply Hwf, Hl'. }
        rewrite (H5 _ _ He') in Hget. congruence.
      * apply (H6 k e); [lia | exact Hget].
Qed.

End SecondPass.

(** ** The reconciliation as a whole *)

Lemma getInitial_result (g : Grid.t) (cols : Columns) (children : list nat) :
  exists cols' a1 a,
    fold_left (place g) children (cols, ColumnSizes.empty) = (cols', a1)
    /\ flatten a1 = Some a
    /\ getInitialChildColumnSizes g cols children = Some (cols', a).
Proof.
  unfold getInitialChildColumnSizes.
  destruct (fold_left (place g) children (cols, ColumnSizes.empty)) as [cols' a1].
  destruct (flatten_total a1) as [a Ha].
  exists cols', a1, a. now rewrite Ha.
Qed.

(** C1: two calls on columns that agree on [colStart], [colEnd],
    [rowStart], [rowEnd], [widthSetByUser] and the value of [calcWidth]
    return the same array: the same objects in the same slots, whatever
    else differs between the columns. *)
Theorem reconciliation_deterministic
    (g : Grid.t) (cols1 cols2 : Columns) (children : list nat) :
  (forall r, r ∈ children -> agree g (cols1 r) (cols2 r)) ->
  exists cols1' cols2' a,
    getInitialChildColumnSizes g cols1 children = Some (cols1', a)
    /\ getInitialChildColumnSizes g cols2 children = Some (cols2', a).
Proof.
  intros Hag.
  pose proof (fold_place_agree g children cols1 cols2 ColumnSizes.empty Hag) as Hsnd.
  destruct (getInitial_result g cols1 children) as (c1 & a1 & r1 & Hf1 & Hfl1 & Hr1).
  destruct (getInitial_result g cols2 children) as (c2 & a2 & r2 & Hf2 & Hfl2 & Hr2).
  rewrite Hf1, Hf2 in Hsnd. cbn [snd] in Hsnd. subst a2.
  assert (r2 = r1) as -> by congruence.
  exists c1, c2, r1. split; assumption.
Qed.

Lemma reconciliation_deterministic_witness :
  exists cols1' cols2' a,
    getInitialChildColumnSizes sample_grid sample_layout [0; 1; 2]%nat = Some (cols1', a)
    /\ getInitialChildColumnSizes sample_grid sample_layout_cached [0; 1; 2]%nat
       = Some (cols2', a).
Proof.
  apply reconciliation_deterministic.
  intros r Hr.
  repeat (apply elem_of_cons in Hr as [-> | Hr]);
    [vm_compute; repeat split; reflexivity ..|].
  apply elem_of_nil in Hr. destruct Hr.
Defined.

(** ** What the reads of [calcWidth] leave *)

Lemma after_read_again (g : Grid.t) (c : Column) :
  after_read g (after_read g c) = after_read g c.
Proof.
  unfold after_read, getCalcWidth. destruct (calcWidth_cached c) eqn:Hc; cbn [snd].
  - now rewrite Hc.
  - destruct (calcWidth_cached (cacheCalcWidth g c)); reflexivity.
Qed.

Lemma after_read_fields (g : Grid.t) (c : Column) :
  colStart (after_read g c) = colStart c
  /\ gridColumnSpan (after_read g c) = gridColumnSpan c
  /\ width_counts g (after_read g c) = width_counts g c.
Proof.
  pose proof (getCalcWidth_cache g c) as Hs.
  destruct (same_but_cache_fields _ _ Hs) as (H1 & _ & _ & _ & H5 & _ & _ & _ & _ & H10).
  unfold after_read, width_counts. now rewrite H1, H5, H10.
Qed.

Lemma after_read_cases (g : Grid.t) (c : Column) :
  (calcWidth_cached c = true /\ after_read g c = c)
  \/ (calcWidth_cached c = false /\ after_read g c = cacheCalcWidth g c).
Proof.
  unfold after_read, getCalcWidth. destruct (calcWidth_cached c); [left | right]; now split.
Qed.

(** The columns [size_info] leaves: the column it was called for, read
    when its width counts. *)
Lemma size_info_read (g : Grid.t) (r : nat) (cols : Columns) :
  snd (size_info g r cols)
  = if width_counts g (cols r) then set_column r (after_read g (cols r)) cols else cols.
Proof.
  unfold size_info, width_counts, after_read.
  destruct (truthyB (widthSetByUser (cols r)) || Grid.columnWidthSetByUser g); [|reflexivity].
  now destruct (getCalcWidth g (cols r)).
Qed.

Lemma spread_old_objects (n : nat) :
  forall i k (a : ColumnSizes.t),
    ColumnSizes.objects (spread_old n i k a) = ColumnSizes.objects a.
Proof.
  induction n as [|n IH]; intros i k a; cbn [spread_old]; [reflexivity|].
  destruct (ColumnSizes.open_slot a i); [|reflexivity].
  now rewrite IH, objects_copy_slot.
Qed.

Section Reads.

Variable g : Grid.t.
Variable cols0 : Columns.
Variable children : list nat.

Lemma read_inv_column (cols : Columns) (a : ColumnSizes.t) (r : nat) :
  read_inv g cols0 children (cols, a) ->
  colStart (cols r) = colStart (cols0 r)
  /\ width_counts g (cols r) = width_counts g (cols0 r)
  /\ after_read g (cols r) = after_read g (cols0 r).
Proof.
  intros [H _]. destruct (H r) as [Hr | (_ & _ & _ & Hr)]; cbn [fst] in Hr; rewrite Hr.
  - auto.
  - destruct (after_read_fields g (cols0 r)) as (H1 & _ & H3).
    split; [exact H1|]. split; [exact H3 | apply after_read_again].
Qed.

Lemma read_inv_set_new (cols : Columns) (a : ColumnSizes.t) (r : nat) (i : Z) :
  r ∈ children -> truthyZ (colStart (cols0 r)) = true ->
  read_inv g cols0 children (cols, a) ->
  read_inv g cols0 children
    (snd (size_info g r cols), ColumnSizes.set_new a i (info_of g r (cols r))).
Proof.
  intros Hr Ht Hinv.
  destruct (read_inv_column cols a r Hinv) as (_ & Hw & Hread).
  destruct Hinv as [Hcols Hobj]. cbn [fst snd] in *.
  rewrite size_info_read, Hw, Hread.
  assert (Hstep : forall r',
            (if width_counts g (cols0 r)
             then set_column r (after_read g (cols0 r)) cols else cols) r'
            = if width_counts g (cols0 r) && Nat.eqb r' r
              then after_read g (cols0 r) else cols r').
  { intros r'. destruct (width_counts g (cols0 r)); [|reflexivity].
    unfold set_column. now destruct (Nat.eqb r' r). }
  split.
  - intros r'. cbn [fst]. rewrite Hstep.
    destruct (width_counts g (cols0 r) && Nat.eqb r' r) eqn:Hb; [|apply Hcols].
    apply andb_true_iff in Hb as [Hwc Heq]. apply Nat.eqb_eq in Heq. subst r'.
    right. auto.
  - cbn [fst snd ColumnSizes.set_new ColumnSizes.set_slot ColumnSizes.objects].
    apply Forall_app. split.
    + eapply Forall_impl; [exact Hobj|]. intros e He Hwc. cbn beta in He.
      rewrite Hstep.
      destruct (width_counts g (cols0 r) && Nat.eqb (MRLColumnSizeInfo.ref e) r) eqn:Hb;
        [|now apply He].
      apply andb_true_iff in Hb as [_ Heq]. apply Nat.eqb_eq in Heq. now rewrite Heq.
    + constructor; [|constructor]. cbn [info_of MRLColumnSizeInfo.ref]. intros Hwc.
      rewrite Hstep, Hwc, Nat.eqb_refl. reflexivity.
Qed.

Lemma read_inv_spread_new (r : nat) (n : nat) :
  r ∈ children -> truthyZ (colStart (cols0 r)) = true ->
  forall i (cols : Columns) (a : ColumnSizes.t),
    read_inv g cols0 children (cols, a) ->
    read_inv g cols0 children (spread_new g n i r (cols, a)).
Proof.
  intros Hr Ht. induction n as [|n IH]; intros i cols a Hinv; cbn [spread_new fst snd];
    [exact Hinv|].
  destruct (ColumnSizes.open_slot a i); [|exact Hinv].
  rewrite size_info_pair. apply IH. now apply read_inv_set_new.
Qed.

Lemma read_inv_place (cols : Columns) (a : ColumnSizes.t) (r : nat) :
  r ∈ children ->
  read_inv g cols0 children (cols, a) ->
  read_inv g cols0 children (place g (cols, a) r).
Proof.
  intros Hr Hinv. destruct (read_inv_column cols a r Hinv) as (Hcs & _ & _).
  unfold place. rewrite Hcs.
  destruct (truthyZ (colStart (cols0 r))) eqn:Ht; cbn [negb]; [|exact Hinv].
  assert (Hnew : forall a' i,
             ColumnSizes.objects a' = ColumnSizes.objects a ->
             read_inv g cols0 children
               (let '(e, cols') := size_info g r cols in (cols', ColumnSizes.set_new a' i e))).
  { intros a' i Ha'. rewrite size_info_pair. apply read_inv_set_new; [exact Hr | exact Ht |].
    destruct Hinv as [H1 H2]. split; [exact H1|]. cbn [fst snd] in *. now rewrite Ha'. }
  destruct (ColumnSizes.get a _) as [old|]; [|now apply Hnew].
  destruct (_ || _).
  - apply Hnew. destruct (_ && _); [apply spread_old_objects | reflexivity].
  - destruct (_ && _); [now apply read_inv_spread_new | exact Hinv].
Qed.

Lemma read_inv_fold (l : list nat) :
  (forall r, r ∈ l -> r ∈ children) ->
  forall st : Columns * ColumnSizes.t,
    read_inv g cols0 children st -> read_inv g cols0 children (fold_left (place g) l st).
Proof.
  induction l as [|r l IH]; intros Hl [cols a] Hinv; cbn [fold_left]; [exact Hinv|].
  apply IH.
  - intros r' Hr'. apply Hl. now apply list_elem_of_further.
  - apply read_inv_place; [apply Hl, list_elem_of_here | exact Hinv].
Qed.

End Reads.

(** The flattening makes objects for the columns that have one, and for
    no other. *)
Lemma fill_span_refs (Q : nat -> Prop) (cur : MRLColumnSizeInfo.t) (n : nat) :
  Q (MRLColumnSizeInfo.ref cur) ->
  forall i j (a : ColumnSizes.t),
    Forall (fun e => Q (MRLColumnSizeInfo.ref e)) (ColumnSizes.objects a) ->
    Forall (fun e => Q (MRLColumnSizeInfo.ref e))
           (ColumnSizes.objects (snd (fill_span n i j cur a))).
Proof.
  intros Hcur. induction n as [|n IH]; intros i j a Ha; cbn [fill_span]; [exact Ha|].
  destruct (_ && _); [|exact Ha].
  destruct (stops_at cur _); [exact Ha|].
  apply IH. cbn. apply Forall_app. split; [exact Ha|]. constructor; [exact Hcur | constructor].
Qed.

Lemma flatten_from_refs (Q : nat -> Prop) (fuel : nat) :
  forall i (a a' : ColumnSizes.t),
    Forall (fun e => Q (MRLColumnSizeInfo.ref e)) (ColumnSizes.objects a) ->
    flatten_from fuel i a = Some a' ->
    Forall (fun e => Q (MRLColumnSizeInfo.ref e)) (ColumnSizes.objects a').
Proof.
  induction fuel as [|fuel IH]; intros i a a' Ha.
  - cbn. destruct (i <? ColumnSizes.length a); [discriminate|]. now intros [= <-].
  - cbn [flatten_from]. destruct (i <? ColumnSizes.length a); [|now intros [= <-]].
    destruct (ColumnSizes.slots a !! i) as [l|]; [|now apply IH].
    destruct (ColumnSizes.objects a !! l) as [cur|] eqn:Hcur; [|now apply IH].
    destruct (1 <? MRLColumnSizeInfo.colSpan cur); [|now apply IH].
    assert (Hq : Q (MRLColumnSizeInfo.ref cur)).
    { rewrite Forall_lookup in Ha. exact (Ha _ _ Hcur). }
    pose proof (fill_span_refs Q cur (Z.to_nat (MRLColumnSizeInfo.colSpan cur - 1)) Hq i 1 a Ha)
      as H1.
    destruct (fill_span _ i 1 cur a) as [j a1]. cbn [snd] in H1.
    apply IH. cbn. now apply Forall_insert.
Qed.

(** C2, as the code has it: the call changes no field of any column but
    the cache of the calculated width ([_calcWidth], [calcPixelWidth]),
    and that by reading [calcWidth] only.  [colStart], [colEnd],
    [rowStart], [rowEnd], [width], [widthSetByUser], [hidden], [pinned]
    and [parent] are as before, and a column that is not among the
    children is untouched.  A column is afterwards as it was, or it is a
    child with a [colStart] whose width counts (it was set by the user,
    or a width was set for all the columns of the grid), whose cache was
    empty and is now as [cacheCalcWidth] fills it.  The column of every
    object of the returned array whose width counts was read: it is as a
    read of [calcWidth] leaves it. *)
Theorem reconciliation_writes_cache_only
    (g : Grid.t) (cols : Columns) (children : list nat) :
  exists cols' a,
    getInitialChildColumnSizes g cols children = Some (cols', a)
    /\ (forall r,
         same_but_cache (cols r) (cols' r)
         /\ colStart (cols' r) = colStart (cols r)
         /\ colEnd (cols' r) = colEnd (cols r)
         /\ rowStart (cols' r) = rowStart (cols r)
         /\ rowEnd (cols' r) = rowEnd (cols r)
         /\ width (cols' r) = width (cols r)
         /\ widthSetByUser (cols' r) = widthSetByUser (cols r)
         /\ hidden (cols' r) = hidden (cols r)
         /\ pinned (cols' r) = pinned (cols r)
         /\ parent (cols' r) = parent (cols r)
         /\ (r ∉ children -> cols' r = cols r)
         /\ (cols' r = cols r
             \/ (r ∈ children
                 /\ truthyZ (colStart (cols r)) = true
                 /\ width_counts g (cols r) = true
                 /\ calcWidth_cached (cols r) = false
                 /\ cols' r = cacheCalcWidth g (cols r))))
    /\ (forall i e,
          ColumnSizes.get a i = Some e ->
          width_counts g (cols (MRLColumnSizeInfo.ref e)) = true ->
          cols' (MRLColumnSizeInfo.ref e)
          = snd (getCalcWidth g (cols (MRLColumnSizeInfo.ref e)))).
Proof.
  destruct (getInitial_result g cols children) as (cols' & a1 & a & Hf & Hfl & Hr).
  exists cols', a. split; [exact Hr|].
  assert (Hinv : read_inv g cols children (cols', a1)).
  { rewrite <- Hf. apply read_inv_fold; [auto|]. split; [now left | constructor]. }
  destruct Hinv as [Hcols Hobj]. cbn [fst snd] in Hcols, Hobj.
  split.
  - intros r.
    destruct (fold_place_cache g children cols ColumnSizes.empty) as [Hc Hframe].
    rewrite Hf in Hc, Hframe. cbn [fst] in Hc, Hframe.
    destruct (Hc r) as [Hs _].
    destruct (same_but_cache_fields _ _ Hs) as (H1 & H2 & H3 & H4 & H5 & H6 & H7 & H8 & H9 & _).
    repeat (split; [assumption|]). split; [apply Hframe|].
    destruct (Hcols r) as [Heq | (Hin & Ht & Hw & Heq)]; [now left|].
    destruct (after_read_cases g (cols r)) as [[Hc1 Hc2] | [Hc1 Hc2]].
    + left. now rewrite Heq, Hc2.
    + right. rewrite Heq, Hc2. auto.
  - intros i e Hget Hw.
    pose proof (flatten_from_refs
                  (fun r => width_counts g (cols r) = true -> cols' r = after_read g (cols r))
                  _ 0 a1 a Hobj Hfl) as Hall.
    unfold ColumnSizes.get in Hget.
    destruct (ColumnSizes.slots a !! i) as [l|]; [|discriminate].
    rewrite Forall_lookup in Hall. exact (Hall _ _ Hget Hw).
Qed.

(** C2 as stated fails: a column with [colStart = 1], otherwise as
    constructed, in a grid whose column width was set, has its cache
    filled by the call. *)
Lemma reconciliation_fills_cache :
  _calcWidth (columns_of [declared (Some 1) None None] 0%nat) = JS.Null
  /\ option_map (fun res => _calcWidth (fst res 0%nat))
       (getInitialChildColumnSizes sized_grid
          (columns_of [declared (Some 1) None None]) [0%nat])
     = Some (JS.Str "136px").
Proof. split; vm_compute; reflexivity. Qed.

(** C10, as the code has it: an object of the returned array has span 1
    when its column spans one slot or more, and keeps the span of its
    column when that is zero or negative ([colEnd] not beyond [colStart]);
    no span is greater than 1.  When the width was set by the user and
    the column spans more than one slot, the width is the calculated width
    divided by the span of the column. *)
Theorem reconciliation_flattens
    (g : Grid.t) (cols : Columns) (children : list nat) :
  exists cols' a,
    getInitialChildColumnSizes g cols children = Some (cols', a)
    /\ forall i e,
         0 <= i < ColumnSizes.length a ->
         ColumnSizes.get a i = Some e ->
         let c := cols (MRLColumnSizeInfo.ref e) in
         MRLColumnSizeInfo.colSpan e = Z.min 1 (gridColumnSpan c)
         /\ MRLColumnSizeInfo.widthSetByUser e = widthSetByUser c
         /\ (truthyB (widthSetByUser c) = true -> 1 < gridColumnSpan c ->
             MRLColumnSizeInfo.width e
             = Some (JS.parseInt10 (calcWidth g c) / JS.float_of_Z (gridColumnSpan c))%float).
Proof.
  destruct (getInitial_result g cols children) as (cols' & a1 & a & Hf & Hfl & Hr).
  exists cols', a. split; [exact Hr|]. intros i e Hi Hget c.
  assert (H1 : first_pass_inv g cols (cols', a1)).
  { rewrite <- Hf. apply fold_place_inv.
    split; [apply cache_only_refl|]. split; [apply well_formed_empty | constructor]. }
  destruct H1 as (_ & Hwf & Hobj). cbn [snd] in Hwf, Hobj.
  assert (H2 : second_pass_inv g cols (ColumnSizes.length a) a).
  { apply (flatten_from_inv g cols (Z.to_nat (flatten_bound a1)) 0 a1 a); [lia | | exact Hfl].
    split; [exact Hwf|]. split.
    - eapply Forall_impl; [exact Hobj|]. intros x Hx. now left.
    - intros k x Hk. lia. }
  destruct H2 as (_ & Hbuilt & Hflat).
  pose proof (Hflat i e Hi Hget) as Hle.
  assert (Hb : built g cols e).
  { unfold ColumnSizes.get in Hget.
    destruct (ColumnSizes.slots a !! i) as [l|]; [|discriminate].
    rewrite Forall_lookup in Hbuilt. exact (Hbuilt _ _ Hget). }
  destruct Hb as [Ho | (o & Ho & Hspan & ->)].
  - subst c. rewrite Ho in Hle |- *. cbn in Hle |- *.
    split; [lia|]. split; [reflexivity|]. intros _ Hgt. lia.
  - subst c. cbn [flattened MRLColumnSizeInfo.ref MRLColumnSizeInfo.colSpan
                  MRLColumnSizeInfo.widthSetByUser MRLColumnSizeInfo.width].
    rewrite Ho in Hspan |- *. cbn in Hspan |- *.
    split; [lia|]. split; [reflexivity|]. intros Hset _.
    unfold shared_width, MRLColumnSizeInfo.width_number. cbn. now rewrite Hset.
Qed.

(** C10 as stated fails: a column with [colStart = 2] and [colEnd = 2] is
    returned in slot 1 with span 0. *)
Lemma reconciliation_keeps_empty_span :
  gridColumnSpan (empty_span_layout 0%nat) = 0
  /\ option_map (fun res => option_map MRLColumnSizeInfo.colSpan (ColumnSizes.get (snd res) 1))
       (getInitialChildColumnSizes sample_grid empty_span_layout [0%nat])
     = Some (Some 0).
Proof. split; vm_compute; reflexivity. Qed.

(** ** The filled sizes *)

Lemma length_append (s t : string) :
  String.length (s ++ t) = (String.length s + String.length t)%nat.
Proof.
  induction s as [|c s IH]; [reflexivity|].
  change (S (String.length (s ++ t)) = S (String.length s + String.length t)).
  now f_equal.
Qed.

Lemma substring_all (t : string) : substring 0 (String.length t) t = t.
Proof.
  induction t as [|d t IH]; [reflexivity|].
  change (String d (substring 0 (String.length t) t) = String d t). now f_equal.
Qed.

Lemma substring_append_tail (s t : string) :
  substring (String.length s) (String.length t) (s ++ t) = t.
Proof.
  induction s as [|c s IH]; [apply substring_all | exact IH].
Qed.

Lemma ends_with_append (s t : string) : JS.ends_with t (s ++ t) = true.
Proof.
  unfold JS.ends_with. rewrite length_append.
  apply andb_true_iff. split; [apply Nat.leb_le; lia|].
  replace (String.length s + String.length t - String.length t)%nat
    with (String.length s) by lia.
  rewrite substring_append_tail. apply String.eqb_refl.
Qed.

Lemma filled_size_px (g : Grid.t) (a : ColumnSizes.t) (i : Z) :
  JS.ends_with "px" (filled_size g a i) = true.
Proof.
  unfold filled_size. destruct (ColumnSizes.get a i) as [e|];
    [destruct (MRLColumnSizeInfo.has_width e)|]; apply ends_with_append.
Qed.

Lemma filled_from_spec (g : Grid.t) (a : ColumnSizes.t) (n : nat) :
  forall i,
    length (filled_from g n i a) = n
    /\ Forall (fun s => JS.ends_with "px" s = true) (filled_from g n i a)
    /\ forall k, (k < n)%nat ->
                 filled_from g n i a !! k = Some (filled_size g a (i + Z.of_nat k)).
Proof.
  induction n as [|n IH]; intros i; cbn [filled_from].
  - repeat split; [constructor | intros k Hk; lia].
  - destruct (IH (i + 1)) as (Hlen & Hpx & Hk). repeat split.
    + cbn. now rewrite Hlen.
    + constructor; [apply filled_size_px | exact Hpx].
    + intros [|k] Hlt; cbn.
      * now rewrite Z.add_0_r.
      * rewrite Hk by lia. do 2 f_equal. lia.
Qed.

(** C7: [getFilledChildColumnSizes] returns one string for each slot of
    the reconciled array, every string ends in ['px'], and a slot that is
    a hole, or whose object has no width ([null], [0] or NaN), gets the
    possible column width of the grid. *)
Theorem filled_sizes_leave_no_gap (g : Grid.t) (cols : Columns) (children : list nat) :
  exists cols' a sizes,
    getInitialChildColumnSizes g cols children = Some (cols', a)
    /\ getFilledChildColumnSizes g cols children = Some (cols', sizes)
    /\ length sizes = Z.to_nat (ColumnSizes.length a)
    /\ Forall (fun s => JS.ends_with "px" s = true) sizes
    /\ forall i, 0 <= i < ColumnSizes.length a ->
         match ColumnSizes.get a i with
         | None => sizes !! Z.to_nat i = Some (possible_size g)
         | Some e =>
             match MRLColumnSizeInfo.width e with
             | None => sizes !! Z.to_nat i = Some (possible_size g)
             | Some x =>
                 if JS.number_truthy x
                 then sizes !! Z.to_nat i = Some (JS.Number_toString x ++ "px")
                 else sizes !! Z.to_nat i = Some (possible_size g)
             end
         end.
Proof.
  destruct (getInitial_result g cols children) as (cols' & a1 & a & _ & _ & Hr).
  destruct (filled_from_spec g a (Z.to_nat (ColumnSizes.length a)) 0) as (Hlen & Hpx & Hk).
  exists cols', a, (filled_from g (Z.to_nat (ColumnSizes.length a)) 0 a).
  split; [exact Hr|]. split; [unfold getFilledChildColumnSizes; now rewrite Hr|].
  split; [exact Hlen|]. split; [exact Hpx|].
  intros i Hi. rewrite Hk by lia. rewrite Z2Nat.id, Z.add_0_l by lia.
  unfold filled_size, possible_size, MRLColumnSizeInfo.has_width, MRLColumnSizeInfo.width_number.
  destruct (ColumnSizes.get a i) as [e|]; [|reflexivity].
  destruct (MRLColumnSizeInfo.width e) as [x|]; [|reflexivity].
  destruct (JS.number_truthy x); reflexivity.
Qed.

(** ** Arrays of columns: indexOf and splice *)

Lemma indexOf_from_spec (l : list nat) (x : nat) :
  forall i,
    (x ∉ l -> JS.indexOf_from l x i = -1)
    /\ (x ∈ l -> i <= JS.indexOf_from l x i < i + Z.of_nat (length l)
                 /\ l !! Z.to_nat (JS.indexOf_from l x i - i) = Some x
                 /\ x ∉ take (Z.to_nat (JS.indexOf_from l x i - i)) l).
Proof.
  induction l as [|y l IH]; intros i; cbn [JS.indexOf_from].
  - split; [reflexivity|]. intros H. inversion H.
  - destruct (Nat.eqb_spec y x) as [->|Hne].
    + split; [intros H; exfalso; apply H; left|]. intros _.
      replace (i - i) with 0 by lia. cbn. repeat split; try lia. apply not_elem_of_nil.
    + destruct (IH (i + 1)) as [Hno Hyes]. split.
      * intros H. apply Hno. intros Hx. apply H. now right.
      * intros H. apply elem_of_cons in H as [->|H]; [congruence|].
        destruct (Hyes H) as (Hr & Hl & Ht). cbn [length].
        replace (Z.to_nat (JS.indexOf_from l x (i + 1) - i))
          with (S (Z.to_nat (JS.indexOf_from l x (i + 1) - (i + 1)))) by lia.
        cbn. repeat split; try lia; [exact Hl|].
        intros Hin. apply elem_of_cons in Hin as [->|Hin]; [congruence | contradiction].
Qed.

Lemma indexOf_absent (l : list nat) (x : nat) : x ∉ l -> JS.indexOf l x = -1.
Proof. intros H. unfold JS.indexOf. now apply indexOf_from_spec. Qed.

Lemma indexOf_present (l : list nat) (x : nat) :
  x ∈ l ->
  0 <= JS.indexOf l x < Z.of_nat (length l)
  /\ l !! Z.to_nat (JS.indexOf l x) = Some x
  /\ x ∉ take (Z.to_nat (JS.indexOf l x)) l.
Proof.
  intros H. unfold JS.indexOf. destruct (indexOf_from_spec l x 0) as [_ Hs].
  destruct (Hs H) as (H1 & H2 & H3).
  rewrite Z.sub_0_r in H2, H3. repeat split; try lia; assumption.
Qed.


Lemma elem_of_take_drop (k : nat) (y : nat) (l : list nat) :
  y ∈ l <-> y ∈ take k l \/ y ∈ drop k l.
Proof. rewrite <- elem_of_app. now rewrite take_drop. Qed.

Lemma elem_of_splice_insert (start : Z) (x y : nat) (l : list nat) :
  y ∈ JS.splice_insert start x l <-> y = x \/ y ∈ l.
Proof.
  unfold JS.splice_insert. rewrite elem_of_app, elem_of_cons.
  rewrite (elem_of_take_drop (JS.splice_start start l) y l). tauto.
Qed.

Lemma length_splice_insert (start : Z) (x : nat) (l : list nat) :
  length (JS.splice_insert start x l) = S (length l).
Proof.
  unfold JS.splice_insert. rewrite length_app. cbn. rewrite length_take, length_drop. lia.
Qed.

Lemma splice_start_index (l : list nat) (i : Z) :
  0 <= i < Z.of_nat (length l) -> JS.splice_start i l = Z.to_nat i.
Proof. intros H. unfold JS.splice_start. destruct (Z.ltb_spec i 0); lia. Qed.

(** Removing a column at its [indexOf] from an array that holds it once
    leaves the others and not the column. *)
Lemma elem_of_splice_remove (x y : nat) (l : list nat) :
  x ∈ l -> NoDup l ->
  y ∈ JS.splice_remove (JS.indexOf l x) l <-> y <> x /\ y ∈ l.
Proof.
  intros Hin Hnd. destruct (indexOf_present l x Hin) as (Hr & Hl & Ht).
  unfold JS.splice_remove. rewrite splice_start_index by exact Hr.
  set (k := Z.to_nat (JS.indexOf l x)) in *.
  pose proof (take_drop_middle l k x Hl) as Hsplit.
  rewrite <- Hsplit in Hnd. apply NoDup_app in Hnd as (_ & Hdisj & Hnd2).
  apply NoDup_cons in Hnd2 as [Hnot _].
  rewrite elem_of_app.
  assert (Hmem : y ∈ l <-> y ∈ take k l \/ y = x \/ y ∈ drop (S k) l).
  { rewrite <- Hsplit at 1. now rewrite elem_of_app, elem_of_cons. }
  rewrite Hmem. split.
  - intros [H | H]; (split; [|tauto]); intros ->; contradiction.
  - intros [Hne [H | [H | H]]]; [now left | contradiction | now right].
Qed.

Section PinProofs.

Variable host : Host.t.
Hypothesis frame : HostFrame host.
Variable this : nat.

Lemma pin_top_spec (w : World) :
  _pinned (columns w this) = false ->
  parent (columns w this) = None ->
  exists ins w',
    pin host this None w = (true, w')
    /\ _pinned (columns w' this) = true
    /\ parent (columns w' this) = None
    /\ _unpinnedIndex (columns w' this)
       = Some (JS.indexOf (Grid._unpinnedColumns (grid w)) this)
    /\ Grid._pinnedColumns (grid w')
       = (if JS.indexOf (Grid._pinnedColumns (grid w)) this =? -1
          then JS.splice_insert ins this (Grid._pinnedColumns (grid w))
          else Grid._pinnedColumns (grid w))
    /\ Grid._unpinnedColumns (grid w')
       = (if (JS.indexOf (Grid._pinnedColumns (grid w)) this =? -1)
             && negb (JS.indexOf (Grid._unpinnedColumns (grid w)) this =? -1)
          then JS.splice_remove (JS.indexOf (Grid._unpinnedColumns (grid w)) this)
                                (Grid._unpinnedColumns (grid w))
          else Grid._unpinnedColumns (grid w)).
Proof.
  intros Hpinned Hparent. unfold pin. cbv zeta.
  set (w0 := Host.endEdit host true w).
  destruct (endEdit_quiet host frame true w) as (P0 & U0 & I0 & C0). fold w0 in P0, U0, I0, C0.
  destruct (C0 this) as (F0 & X0 & R0).
  rewrite F0, Hpinned, R0, Hparent. cbn [andb negb].
  unfold pinnable, pinned. rewrite F0, Hpinned. rewrite orb_true_r. cbn [negb].
  set (w1 := with_column w0 this _).
  set (w2 := Host.pinnedChange_emit host this true w1).
  destruct (pinnedChange_quiet host frame this true w1) as (P2 & U2 & I2 & C2).
  fold w2 in P2, U2, I2, C2. destruct (C2 this) as (F2 & X2 & R2).
  set (w3 := with_column w2 this _).
  set (idx := Z.of_nat (length (Grid._pinnedColumns (grid w3)))).
  destruct (onColumnPinning_quiet host frame this idx true w3) as (P4 & U4 & I4 & C4).
  destruct (Host.onColumnPinning_emit host this idx true w3) as [ins w4] eqn:E4.
  cbn [snd] in P4, U4, I4, C4. destruct (C4 this) as (F4 & X4 & R4).
  set (w5 := if JS.indexOf (Grid._pinnedColumns (grid w4)) this =? -1 then _ else w4).
  set (w7 := Host.resetCaches host w5).
  destruct (resetCaches_quiet host frame w5) as (P7 & U7 & I7 & C7).
  fold w7 in P7, U7, I7, C7. destruct (C7 this) as (F7 & X7 & R7).
  set (w8 := Host.notifyChanges host w7).
  destruct (notifyChanges_quiet host frame w7) as (P8 & U8 & I8 & C8).
  fold w8 in P8, U8, I8, C8. destruct (C8 this) as (F8 & X8 & R8).
  assert (Hcol5 : columns w5 = columns w4).
  { subst w5. destruct (_ =? -1); [|reflexivity]. cbn. destruct (negb _); reflexivity. }
  assert (Hw3 : columns w3 this
                = with_pinned (columns w2 this) (_pinned (columns w2 this))
                    (Some (JS.indexOf (Grid._unpinnedColumns (grid w2)) this))).
  { subst w3. cbn. apply set_column_same. }
  assert (Hw1 : columns w1 this = with_pinned (columns w0 this) true (_unpinnedIndex (columns w0 this))).
  { subst w1. cbn. apply set_column_same. }
  assert (Hpar : parent (columns w8 this) = None).
  { rewrite R8, R7, Hcol5, R4, Hw3. cbn. rewrite R2, Hw1. cbn. now rewrite R0. }
  unfold columnLayoutChild. rewrite Hpar.
  set (w10 := Host.refreshExpressions host w8).
  destruct (refreshExpressions_quiet host frame w8) as (P10 & U10 & I10 & C10).
  fold w10 in P10, U10, I10, C10. destruct (C10 this) as (F10 & X10 & R10).
  assert (HP3 : Grid._pinnedColumns (grid w3) = Grid._pinnedColumns (grid w))
    by (subst w3 w1; cbn; now rewrite P2).
  assert (HU3 : Grid._unpinnedColumns (grid w3) = Grid._unpinnedColumns (grid w))
    by (subst w3 w1; cbn; now rewrite U2).
  exists ins, w10. split; [reflexivity|].
  split; [rewrite F10, F8, F7, Hcol5, F4, Hw3; cbn; rewrite F2, Hw1; reflexivity|].
  split; [now rewrite R10|].
  split.
  { rewrite X10, X8, X7, Hcol5, X4, Hw3. cbn. subst w1. cbn in U2. now rewrite U2, U0. }
  rewrite P10, P8, P7, U10, U8, U7. subst w5. rewrite P4, U4, HP3, HU3.
  destruct (JS.indexOf (Grid._pinnedColumns (grid w)) this =? -1); cbn [andb];
    [|rewrite P4, U4, HP3, HU3; split; reflexivity].
  cbn [grid with_grid_columns Grid.with_columns Grid._unpinnedColumns Grid._pinnedColumns].
  destruct (negb (JS.indexOf (Grid._unpinnedColumns (grid w)) this =? -1)); split; reflexivity.
Qed.

Lemma unpin_top_spec (w : World) :
  _pinned (columns w this) = true ->
  parent (columns w this) = None ->
  exists w',
    unpin host this None w = (true, w')
    /\ _pinned (columns w' this) = false
    /\ this ∈ Grid._unpinnedColumns (grid w').
Proof.
  intros Hpinned Hparent. unfold unpin. cbv zeta.
  set (w0 := Host.endEdit host true w).
  destruct (endEdit_quiet host frame true w) as (P0 & U0 & I0 & C0). fold w0 in P0, U0, I0, C0.
  destruct (C0 this) as (F0 & X0 & R0).
  rewrite F0, Hpinned, R0, Hparent. cbn [andb negb].
  set (idx := match _unpinnedIndex (columns w0 this) with Some u => u | None => _ end).
  set (w1 := with_column w0 this _).
  set (w2 := Host.pinnedChange_emit host this false w1).
  destruct (pinnedChange_quiet host frame this false w1) as (P2 & U2 & I2 & C2).
  fold w2 in P2, U2, I2, C2. destruct (C2 this) as (F2 & X2 & R2).
  set (w3 := with_grid_columns w2 _ _).
  set (w4 := if negb _ then _ else w3).
  set (w5 := Host.reinitPinStates host w4).
  set (w6 := Host.resetCaches host w5).
  destruct (resetCaches_quiet host frame w5) as (P6 & U6 & I6 & C6).
  fold w6 in P6, U6, I6, C6. destruct (C6 this) as (F6 & X6 & R6).
  set (ins := JS.indexOf (Grid._unpinnedColumns (grid w6)) this).
  destruct (onColumnPinning_quiet host frame this ins false w6) as (P7 & U7 & I7 & C7).
  set (w7 := snd (Host.onColumnPinning_emit host this ins false w6)) in *.
  destruct (C7 this) as (F7 & X7 & R7).
  set (w8 := Host.notifyChanges host w7).
  destruct (notifyChanges_quiet host frame w7) as (P8 & U8 & I8 & C8).
  fold w8 in P8, U8, I8, C8. destruct (C8 this) as (F8 & X8 & R8).
  assert (Hw1 : columns w1 this
                = with_pinned (columns w0 this) false (_unpinnedIndex (columns w0 this))).
  { subst w1. cbn. apply set_column_same. }
  assert (Hcol4 : columns w4 = columns w2).
  { subst w4 w3. destruct (negb _); reflexivity. }
  assert (Hflag4 : _pinned (columns w4 this) = false).
  { rewrite Hcol4, F2, Hw1. reflexivity. }
  assert (Hin4 : this ∈ Grid._unpinnedColumns (grid w4)).
  { subst w4. destruct (negb _); cbn; apply elem_of_splice_insert; now left. }
  pose proof (reinitPinStates_columns host frame w4 this) as F5. fold w5 in F5.
  pose proof (reinitPinStates_unpinned host frame w4 this Hflag4 Hin4) as Hin5. fold w5 in Hin5.
  set (w10 := Host.refreshExpressions host _).
  assert (Hq : Grid._unpinnedColumns (grid w10) = Grid._unpinnedColumns (grid w8)
               /\ _pinned (columns w10 this) = _pinned (columns w8 this)).
  { subst w10. destruct (columnLayoutChild host w8 (columns w8 this)).
    - destruct (populateVisibleIndexes_quiet host frame w8) as (_ & U9 & _ & C9).
      destruct (refreshExpressions_quiet host frame (Host.populateVisibleIndexes host w8))
        as (_ & U10 & _ & C10).
      destruct (C9 this) as (F9 & _), (C10 this) as (F10 & _).
      split; congruence.
    - destruct (refreshExpressions_quiet host frame w8) as (_ & U10 & _ & C10).
      destruct (C10 this) as (F10 & _). split; congruence. }
  destruct Hq as [U10 F10].
  exists w10. split; [reflexivity|]. split.
  - rewrite F10, F8, F7, F6, F5. exact Hflag4.
  - rewrite U10, U8, U7, U6. exact Hin5.
Qed.

End PinProofs.

(** ** Pinning and unpinning a top-level column *)


Lemma still_host_frame : HostFrame still_host.
Proof.
  assert (Hq : forall w, same_pinning w w) by (intros w; repeat split).
  constructor; cbn; try (intros; intros w; apply Hq); auto.
Qed.



(** C4: [pin()] and then [unpin()] on a column that is not pinned and has
    no parent both return true, and afterwards the column is not pinned
    and is in the array of unpinned columns. *)
Theorem pin_then_unpin (host : Host.t) (this : nat) (w : World) :
  HostFrame host ->
  _pinned (columns w this) = false ->
  parent (columns w this) = None ->
  let pinned_world := snd (pin host this None w) in
  fst (pin host this None w) = true
  /\ fst (unpin host this None pinned_world) = true
  /\ pinned (columns (snd (unpin host this None pinned_world)) this) = false
  /\ this ∈ Grid._unpinnedColumns (grid (snd (unpin host this None pinned_world))).
Proof.
  intros frame Hpinned Hparent.
  destruct (pin_top_spec host frame this w Hpinned Hparent)
    as (ins & w' & -> & Hflag & Hpar & _).
  cbn [fst snd].
  destruct (unpin_top_spec host frame this w' Hflag Hpar) as (w'' & -> & Hflag' & Hin).
  cbn [fst snd]. repeat split; assumption.
Qed.

Lemma pin_then_unpin_witness :
  fst (pin still_host 1%nat None sample_world) = true
  /\ fst (unpin still_host 1%nat None (snd (pin still_host 1%nat None sample_world))) = true
  /\ pinned (columns (snd (unpin still_host 1%nat None
                             (snd (pin still_host 1%nat None sample_world)))) 1%nat) = false
  /\ 1%nat ∈ Grid._unpinnedColumns
              (grid (snd (unpin still_host 1%nat None
                            (snd (pin still_host 1%nat None sample_world))))).
Proof.
  apply (pin_then_unpin still_host 1%nat sample_world).
  - exact still_host_frame.
  - reflexivity.
  - reflexivity.
Defined.

(** C8: [pin(index)] with an index that is negative, or not below the
    number of pinned columns of the grid, on a column that is not pinned
    and has no parent, returns false; the column is still not pinned and
    the two arrays of the grid are as they were. *)
Theorem pin_out_of_range (host : Host.t) (this : nat) (i : Z) (w : World) :
  HostFrame host ->
  _pinned (columns w this) = false ->
  parent (columns w this) = None ->
  i < 0 \/ Z.of_nat (length (Host.pinnedColumns host (Host.endEdit host true w))) <= i ->
  fst (pin host this (Some i) w) = false
  /\ pinned (columns (snd (pin host this (Some i) w)) this) = false
  /\ Grid._pinnedColumns (grid (snd (pin host this (Some i) w)))
     = Grid._pinnedColumns (grid w)
  /\ Grid._unpinnedColumns (grid (snd (pin host this (Some i) w)))
     = Grid._unpinnedColumns (grid w).
Proof.
  intros frame Hpinned Hparent Hrange. unfold pin. cbv zeta.
  set (w0 := Host.endEdit host true w) in *.
  destruct (endEdit_quiet host frame true w) as (P0 & U0 & I0 & C0). fold w0 in P0, U0, I0, C0.
  destruct (C0 this) as (F0 & X0 & R0).
  rewrite F0, Hpinned, R0, Hparent.
  assert (Hout : (i <? 0) || (Z.of_nat (length (Host.pinnedColumns host w0)) <=? i) = true).
  { apply orb_true_iff. destruct Hrange as [H | H]; [left; now apply Z.ltb_lt | right; now apply Z.leb_le]. }
  rewrite Hout. cbn [fst snd]. unfold pinned. rewrite F0, Hpinned. auto.
Qed.

Lemma pin_out_of_range_witness :
  fst (pin still_host 1%nat (Some 0) sample_world) = false
  /\ pinned (columns (snd (pin still_host 1%nat (Some 0) sample_world)) 1%nat) = false
  /\ Grid._pinnedColumns (grid (snd (pin still_host 1%nat (Some 0) sample_world)))
     = Grid._pinnedColumns (grid sample_world)
  /\ Grid._unpinnedColumns (grid (snd (pin still_host 1%nat (Some 0) sample_world)))
     = Grid._unpinnedColumns (grid sample_world).
Proof.
  apply pin_out_of_range.
  - exact still_host_frame.
  - reflexivity.
  - reflexivity.
  - right. cbn. lia.
Defined.

(** * Further properties *)

(** ** More on pinning *)

Lemma same_pinning_refl (w : World) : same_pinning w w.
Proof. repeat split. Qed.

Lemma same_pinning_trans (w1 w2 w3 : World) :
  same_pinning w1 w2 -> same_pinning w2 w3 -> same_pinning w1 w3.
Proof.
  intros (P1 & U1 & I1 & C1) (P2 & U2 & I2 & C2).
  repeat split; try congruence;
    destruct (C1 r) as (? & ? & ?), (C2 r) as (? & ? & ?); congruence.
Qed.

(** X1: [pin] on a pinned column and [unpin] on a column that is not
    pinned return false, whatever the index, and leave the arrays and the
    pinning state of every column as they were. *)
Theorem pin_unpin_refuse (host : Host.t) (this : nat) (idx : option Z) (w : World) :
  HostFrame host ->
  (_pinned (columns w this) = true ->
   fst (pin host this idx w) = false /\ same_pinning w (snd (pin host this idx w)))
  /\ (_pinned (columns w this) = false ->
      fst (unpin host this idx w) = false /\ same_pinning w (snd (unpin host this idx w))).
Proof.
  intros frame.
  pose proof (endEdit_quiet host frame true w) as Hq.
  destruct Hq as (P0 & U0 & I0 & C0). destruct (C0 this) as (F0 & _).
  split; intros Hp.
  - unfold pin. cbv zeta. rewrite F0, Hp. cbn [fst snd].
    split; [reflexivity | repeat split; auto; apply C0].
  - unfold unpin. cbv zeta. rewrite F0, Hp. cbn [fst snd negb].
    split; [reflexivity | repeat split; auto; apply C0].
Qed.

Lemma pin_unpin_refuse_witness :
  fst (unpin still_host 1%nat None sample_world) = false
  /\ same_pinning sample_world (snd (unpin still_host 1%nat None sample_world)).
Proof.
  apply (pin_unpin_refuse still_host 1%nat None sample_world).
  - exact still_host_frame.
  - reflexivity.
Defined.

(** X2: [unpin(index)] with an index that is negative, or not below the
    length of the array of unpinned columns, on a pinned column without
    parent, returns false and leaves the column pinned and the arrays as
    they were. *)
Theorem unpin_out_of_range (host : Host.t) (this : nat) (i : Z) (w : World) :
  HostFrame host ->
  _pinned (columns w this) = true ->
  parent (columns w this) = None ->
  i < 0 \/ Z.of_nat (length (Grid._unpinnedColumns (grid w))) <= i ->
  fst (unpin host this (Some i) w) = false
  /\ same_pinning w (snd (unpin host this (Some i) w)).
Proof.
  intros frame Hp Hpar Hrange. unfold unpin. cbv zeta.
  destruct (endEdit_quiet host frame true w) as (P0 & U0 & I0 & C0).
  destruct (C0 this) as (F0 & _ & R0).
  rewrite F0, Hp, R0, Hpar, U0. cbn [negb].
  assert (Hout : (i <? 0) || (Z.of_nat (length (Grid._unpinnedColumns (grid w))) <=? i) = true).
  { apply orb_true_iff. destruct Hrange; [left; now apply Z.ltb_lt | right; now apply Z.leb_le]. }
  rewrite Hout. cbn [fst snd]. split; [reflexivity | repeat split; auto; apply C0].
Qed.

Lemma unpin_out_of_range_witness :
  fst (unpin still_host 1%nat (Some 7) (snd (pin still_host 1%nat None sample_world))) = false
  /\ same_pinning (snd (pin still_host 1%nat None sample_world))
       (snd (unpin still_host 1%nat (Some 7) (snd (pin still_host 1%nat None sample_world)))).
Proof.
  apply unpin_out_of_range.
  - exact still_host_frame.
  - reflexivity.
  - reflexivity.
  - right. vm_compute. discriminate.
Defined.

(** What [unpin()] does to the arrays when the host keeps them. *)
Lemma unpin_top_lists (host : Host.t) (this : nat) (u : Z) (w : World) :
  HostFrame host -> reinit_quiet host ->
  _pinned (columns w this) = true ->
  parent (columns w this) = None ->
  _unpinnedIndex (columns w this) = Some u ->
  exists w',
    unpin host this None w = (true, w')
    /\ _pinned (columns w' this) = false
    /\ Grid._unpinnedColumns (grid w')
       = JS.splice_insert u this (Grid._unpinnedColumns (grid w))
    /\ Grid._pinnedColumns (grid w')
       = (if negb (JS.indexOf (Grid._pinnedColumns (grid w)) this =? -1)
          then JS.splice_remove (JS.indexOf (Grid._pinnedColumns (grid w)) this)
                                (Grid._pinnedColumns (grid w))
          else Grid._pinnedColumns (grid w)).
Proof.
  intros frame Hreinit Hpinned Hparent Hu. unfold unpin. cbv zeta.
  set (w0 := Host.endEdit host true w).
  destruct (endEdit_quiet host frame true w) as (P0 & U0 & I0 & C0). fold w0 in P0, U0, I0, C0.
  destruct (C0 this) as (F0 & X0 & R0).
  rewrite F0, Hpinned, R0, Hparent, X0, Hu. cbn [andb negb].
  set (w1 := with_column w0 this _).
  set (w2 := Host.pinnedChange_emit host this false w1).
  destruct (pinnedChange_quiet host frame this false w1) as (P2 & U2 & I2 & C2).
  fold w2 in P2, U2, I2, C2. destruct (C2 this) as (F2 & X2 & R2).
  set (w3 := with_grid_columns w2 _ _).
  set (w4 := if negb _ then _ else w3).
  set (w5 := Host.reinitPinStates host w4).
  destruct (Hreinit w4) as (P5 & U5 & I5 & C5). fold w5 in P5, U5, I5, C5.
  destruct (C5 this) as (F5 & X5 & R5).
  set (w6 := Host.resetCaches host w5).
  destruct (resetCaches_quiet host frame w5) as (P6 & U6 & I6 & C6).
  fold w6 in P6, U6, I6, C6. destruct (C6 this) as (F6 & X6 & R6).
  set (ins := JS.indexOf (Grid._unpinnedColumns (grid w6)) this).
  destruct (onColumnPinning_quiet host frame this ins false w6) as (P7 & U7 & I7 & C7).
  set (w7 := snd (Host.onColumnPinning_emit host this ins false w6)) in *.
  destruct (C7 this) as (F7 & X7 & R7).
  set (w8 := Host.notifyChanges host w7).
  destruct (notifyChanges_quiet host frame w7) as (P8 & U8 & I8 & C8).
  fold w8 in P8, U8, I8, C8. destruct (C8 this) as (F8 & X8 & R8).
  assert (Hw1 : columns w1 this = with_pinned (columns w0 this) false (Some u)).
  { subst w1. cbn. apply set_column_same. }
  assert (Hcol4 : columns w4 = columns w2).
  { subst w4 w3. destruct (negb _); reflexivity. }
  assert (HP2 : Grid._pinnedColumns (grid w2) = Grid._pinnedColumns (grid w))
    by (rewrite P2; exact P0).
  assert (HU2 : Grid._unpinnedColumns (grid w2) = Grid._unpinnedColumns (grid w))
    by (rewrite U2; exact U0).
  set (w10 := Host.refreshExpressions host _).
  assert (Hq : same_pinning w8 w10).
  { subst w10. destruct (columnLayoutChild host w8 (columns w8 this)).
    - eapply same_pinning_trans; [apply (populateVisibleIndexes_quiet host frame)|].
      apply (refreshExpressions_quiet host frame).
    - apply (refreshExpressions_quiet host frame). }
  destruct Hq as (P10 & U10 & I10 & C10). destruct (C10 this) as (F10 & _).
  exists w10. split; [reflexivity|]. split.
  - rewrite F10, F8, F7, F6, F5, Hcol4, F2, Hw1. reflexivity.
  - rewrite U10, U8, U7, U6, U5, P10, P8, P7, P6, P5. subst w4 w3.
    cbn [grid with_grid_columns Grid.with_columns Grid._unpinnedColumns Grid._pinnedColumns].
    rewrite HP2, HU2.
    destruct (negb (JS.indexOf (Grid._pinnedColumns (grid w)) this =? -1));
      cbn [grid with_grid_columns Grid.with_columns Grid._unpinnedColumns Grid._pinnedColumns];
      rewrite ?HP2, ?HU2; split; reflexivity.
Qed.

(** ** Splicing a column in and out *)

Lemma splice_insert_end (x : nat) (l : list nat) :
  JS.splice_insert (Z.of_nat (length l)) x l = (l ++ [x])%list.
Proof.
  unfold JS.splice_insert, JS.splice_start.
  destruct (Z.ltb_spec (Z.of_nat (length l)) 0); [lia|].
  rewrite Z.min_id, Nat2Z.id, firstn_all, drop_all. reflexivity.
Qed.

Lemma indexOf_from_middle (l1 l2 : list nat) (x : nat) :
  x ∉ l1 -> forall i, JS.indexOf_from (l1 ++ x :: l2) x i = i + Z.of_nat (length l1).
Proof.
  induction l1 as [|y l1 IH]; intros Hx i; cbn.
  - rewrite Nat.eqb_refl. lia.
  - apply not_elem_of_cons in Hx as [Hne Hx].
    destruct (Nat.eqb_spec y x) as [->|_]; [congruence|].
    rewrite IH by exact Hx. lia.
Qed.

Lemma indexOf_middle (l1 l2 : list nat) (x : nat) :
  x ∉ l1 -> JS.indexOf (l1 ++ x :: l2) x = Z.of_nat (length l1).
Proof. intros H. unfold JS.indexOf. now rewrite indexOf_from_middle. Qed.

Lemma splice_remove_middle (l1 l2 : list nat) (x : nat) :
  JS.splice_remove (Z.of_nat (length l1)) (l1 ++ x :: l2) = (l1 ++ l2)%list.
Proof.
  unfold JS.splice_remove. rewrite splice_start_index.
  - rewrite Nat2Z.id. rewrite take_app_length.
    replace (S (length l1)) with (length l1 + 1)%nat by lia.
    rewrite <- drop_drop, drop_app_length. reflexivity.
  - rewrite length_app. cbn. lia.
Qed.

(** Taking a column out of an array that does not hold it otherwise, at
    the place [indexOf] finds it, undoes putting it in, wherever that
    was. *)
Lemma splice_remove_insert (start : Z) (x : nat) (l : list nat) :
  x ∉ l ->
  JS.splice_remove (JS.indexOf (JS.splice_insert start x l) x) (JS.splice_insert start x l) = l.
Proof.
  intros Hx. unfold JS.splice_insert.
  set (k := JS.splice_start start l).
  assert (Hk : x ∉ take k l).
  { intros H. apply Hx. apply (elem_of_take_drop k). now left. }
  rewrite indexOf_middle by exact Hk.
  rewrite splice_remove_middle. apply take_drop.
Qed.

(** Putting a column back where [indexOf] found it undoes taking it
    out. *)
Lemma splice_insert_remove (x : nat) (l : list nat) :
  x ∈ l ->
  JS.splice_insert (JS.indexOf l x) x (JS.splice_remove (JS.indexOf l x) l) = l.
Proof.
  intros Hin. destruct (indexOf_present l x Hin) as (Hr & Hl & _).
  unfold JS.splice_remove. rewrite splice_start_index by exact Hr.
  set (k := Z.to_nat (JS.indexOf l x)) in *.
  assert (Hlen : (k < length l)%nat) by (subst k; lia).
  unfold JS.splice_insert, JS.splice_start.
  destruct (Z.ltb_spec (JS.indexOf l x) 0); [lia|].
  rewrite length_app, length_take, length_drop.
  replace (Z.to_nat (Z.min (JS.indexOf l x) (Z.of_nat (k `min` length l + (length l - S k)))))
    with k by (subst k; lia).
  rewrite take_app_le by (rewrite length_take; lia).
  rewrite take_take, Nat.min_id.
  rewrite drop_app_ge by (rewrite length_take; lia).
  rewrite length_take, Nat.min_l by lia. rewrite Nat.sub_diag, drop_0.
  apply take_drop_middle. exact Hl.
Qed.

Lemma indexOf_found (l : list nat) (x : nat) :
  x ∈ l -> (JS.indexOf l x =? -1) = false.
Proof. intros H. apply Z.eqb_neq. apply indexOf_present in H. lia. Qed.

Lemma indexOf_missing (l : list nat) (x : nat) :
  x ∉ l -> (JS.indexOf l x =? -1) = true.
Proof. intros H. apply Z.eqb_eq. now apply indexOf_absent. Qed.

(** X3: round trip.  [pin()] and then [unpin()] on a column that is not
    pinned, has no parent and stands in the array of unpinned columns
    (and not in the other) give back both arrays exactly: the column
    returns to the index it had. *)
Theorem pin_unpin_restores_arrays (host : Host.t) (this : nat) (w : World) :
  HostFrame host -> reinit_quiet host ->
  _pinned (columns w this) = false ->
  parent (columns w this) = None ->
  this ∈ Grid._unpinnedColumns (grid w) ->
  this ∉ Grid._pinnedColumns (grid w) ->
  let w' := snd (unpin host this None (snd (pin host this None w))) in
  Grid._pinnedColumns (grid w') = Grid._pinnedColumns (grid w)
  /\ Grid._unpinnedColumns (grid w') = Grid._unpinnedColumns (grid w)
  /\ pinned (columns w' this) = false.
Proof.
  intros frame Hreinit Hflag Hpar HinU HninP.
  destruct (pin_top_spec host frame this w Hflag Hpar)
    as (ins & w1 & -> & Hflag1 & Hpar1 & Hidx1 & HP1 & HU1).
  cbn [snd].
  rewrite (indexOf_missing _ _ HninP) in HP1, HU1.
  rewrite (indexOf_found _ _ HinU) in HU1. cbn [andb negb] in HU1.
  destruct (unpin_top_lists host this _ w1 frame Hreinit Hflag1 Hpar1 Hidx1)
    as (w2 & -> & Hflag2 & HU2 & HP2).
  cbn [snd]. rewrite HP2, HU2, HP1, HU1.
  assert (Hin1 : this ∈ JS.splice_insert ins this (Grid._pinnedColumns (grid w)))
    by (apply elem_of_splice_insert; now left).
  rewrite (indexOf_found _ _ Hin1). cbn [negb].
  split; [now apply splice_remove_insert|].
  split; [now apply splice_insert_remove | exact Hflag2].
Qed.

Lemma pin_unpin_restores_arrays_witness :
  Grid._pinnedColumns
    (grid (snd (unpin still_host 1%nat None (snd (pin still_host 1%nat None sample_world)))))
  = Grid._pinnedColumns (grid sample_world)
  /\ Grid._unpinnedColumns
       (grid (snd (unpin still_host 1%nat None (snd (pin still_host 1%nat None sample_world)))))
     = Grid._unpinnedColumns (grid sample_world)
  /\ pinned (columns (snd (unpin still_host 1%nat None
                             (snd (pin still_host 1%nat None sample_world)))) 1%nat) = false.
Proof.
  apply (pin_unpin_restores_arrays still_host 1%nat sample_world).
  - exact still_host_frame.
  - intros w. apply same_pinning_refl.
  - reflexivity.
  - reflexivity.
  - apply (bool_decide_unpack _). vm_compute. exact I.
  - apply (bool_decide_unpack _). vm_compute. exact I.
Defined.

(** ** The grid keeps listing every column once *)

Lemma NoDup_splice_insert (start : Z) (x : nat) (l : list nat) :
  x ∉ l -> NoDup l -> NoDup (JS.splice_insert start x l).
Proof.
  intros Hx Hnd. unfold JS.splice_insert.
  set (k := JS.splice_start start l).
  rewrite <- (take_drop k l) in Hnd, Hx.
  apply NoDup_app in Hnd as (H1 & H2 & H3).
  apply not_elem_of_app in Hx as [Hx1 Hx2].
  apply NoDup_app. split; [exact H1|]. split.
  - intros y Hy Hin. apply elem_of_cons in Hin as [-> | Hin]; [contradiction|].
    now apply (H2 y).
  - apply NoDup_cons. split; assumption.
Qed.

Lemma NoDup_splice_remove (x : nat) (l : list nat) :
  x ∈ l -> NoDup l -> NoDup (JS.splice_remove (JS.indexOf l x) l).
Proof.
  intros Hin Hnd. destruct (indexOf_present l x Hin) as (Hr & Hl & _).
  unfold JS.splice_remove. rewrite splice_start_index by exact Hr.
  set (k := Z.to_nat (JS.indexOf l x)) in *.
  rewrite <- (take_drop_middle l k x Hl) in Hnd.
  apply NoDup_app in Hnd as (H1 & H2 & H3). apply NoDup_cons in H3 as [_ H3].
  apply NoDup_app. split; [exact H1|]. split; [|exact H3].
  intros y Hy Hd. apply (H2 y Hy). now right.
Qed.

(** X4: [pin()] keeps the listing of the grid.  When the two arrays hold
    every column at most once between them, they still do after a column
    without parent was pinned, and they hold the columns they held and
    the pinned one. *)
Theorem pin_keeps_listing (host : Host.t) (this : nat) (w : World) :
  HostFrame host ->
  _pinned (columns w this) = false ->
  parent (columns w this) = None ->
  NoDup (Grid._pinnedColumns (grid w) ++ Grid._unpinnedColumns (grid w)) ->
  let w' := snd (pin host this None w) in
  NoDup (Grid._pinnedColumns (grid w') ++ Grid._unpinnedColumns (grid w'))
  /\ forall y, y ∈ (Grid._pinnedColumns (grid w') ++ Grid._unpinnedColumns (grid w'))%list
               <-> y = this
                   \/ y ∈ (Grid._pinnedColumns (grid w) ++ Grid._unpinnedColumns (grid w))%list.
Proof.
  intros frame Hflag Hpar Hnd.
  destruct (pin_top_spec host frame this w Hflag Hpar)
    as (ins & w1 & -> & _ & _ & _ & HP1 & HU1).
  cbn [snd]. rewrite HP1, HU1. clear HP1 HU1.
  set (P := Grid._pinnedColumns (grid w)) in *.
  set (U := Grid._unpinnedColumns (grid w)) in *.
  pose proof Hnd as Hnd0.
  apply NoDup_app in Hnd as (HndP & Hdisj & HndU).
  destruct (decide (this ∈ P)) as [HinP | HninP].
  - rewrite (indexOf_found _ _ HinP). cbn [andb]. split; [exact Hnd0|].
    intros y. rewrite elem_of_app. split; [tauto|]. intros [-> | H]; [now left | exact H].
  - rewrite (indexOf_missing _ _ HninP). cbn [andb].
    destruct (decide (this ∈ U)) as [HinU | HninU].
    + rewrite (indexOf_found _ _ HinU). cbn [negb]. split.
      * apply NoDup_app. split; [now apply NoDup_splice_insert|]. split.
        -- intros y Hy Hy'. apply elem_of_splice_insert in Hy.
           apply (elem_of_splice_remove this y U HinU HndU) in Hy' as [Hne Hy'].
           destruct Hy as [-> | Hy]; [congruence | now apply (Hdisj y)].
        -- now apply NoDup_splice_remove.
      * intros y. rewrite !elem_of_app, elem_of_splice_insert,
          (elem_of_splice_remove this y U HinU HndU).
        destruct (decide (y = this)) as [-> | Hne]; tauto.
    + rewrite (indexOf_missing _ _ HninU). cbn [negb]. split.
      * apply NoDup_app. split; [now apply NoDup_splice_insert|]. split; [|exact HndU].
        intros y Hy Hy'. apply elem_of_splice_insert in Hy.
        destruct Hy as [-> | Hy]; [contradiction | now apply (Hdisj y)].
      * intros y. rewrite !elem_of_app, elem_of_splice_insert. tauto.
Qed.

Lemma pin_keeps_listing_witness :
  NoDup (Grid._pinnedColumns (grid (snd (pin still_host 1%nat None sample_world)))
         ++ Grid._unpinnedColumns (grid (snd (pin still_host 1%nat None sample_world)))).
Proof.
  apply (pin_keeps_listing still_host 1%nat sample_world).
  - exact still_host_frame.
  - reflexivity.
  - reflexivity.
  - apply (bool_decide_unpack _). vm_compute. exact I.
Defined.

(** X5: [pin()] without an index puts the column at the end of the array
    of pinned columns, when the handlers of the pinning event leave
    [insertAtIndex] as emitted. *)
Theorem pin_appends (host : Host.t) (this : nat) (w : World) :
  HostFrame host -> keeps_insertAtIndex host ->
  _pinned (columns w this) = false ->
  parent (columns w this) = None ->
  this ∉ Grid._pinnedColumns (grid w) ->
  Grid._pinnedColumns (grid (snd (pin host this None w)))
  = (Grid._pinnedColumns (grid w) ++ [this])%list.
Proof.
  intros frame Hkeep Hpinned Hparent Hnin. unfold pin. cbv zeta.
  set (w0 := Host.endEdit host true w).
  destruct (endEdit_quiet host frame true w) as (P0 & U0 & I0 & C0). fold w0 in P0, U0, I0, C0.
  destruct (C0 this) as (F0 & X0 & R0).
  rewrite F0, Hpinned, R0, Hparent. cbn [andb negb].
  unfold pinnable, pinned. rewrite F0, Hpinned. rewrite orb_true_r. cbn [negb].
  set (w1 := with_column w0 this _).
  set (w2 := Host.pinnedChange_emit host this true w1).
  destruct (pinnedChange_quiet host frame this true w1) as (P2 & U2 & I2 & C2).
  fold w2 in P2, U2, I2, C2.
  set (w3 := with_column w2 this _).
  set (idx := Z.of_nat (length (Grid._pinnedColumns (grid w3)))).
  destruct (onColumnPinning_quiet host frame this idx true w3) as (P4 & U4 & I4 & C4).
  pose proof (Hkeep this idx true w3) as Hins.
  destruct (Host.onColumnPinning_emit host this idx true w3) as [ins w4] eqn:E4.
  cbn [fst snd] in P4, U4, I4, C4, Hins. subst ins.
  assert (HP3 : Grid._pinnedColumns (grid w3) = Grid._pinnedColumns (grid w))
    by (subst w3 w1; cbn; now rewrite P2).
  set (w5 := if JS.indexOf (Grid._pinnedColumns (grid w4)) this =? -1 then _ else w4).
  assert (HP5 : Grid._pinnedColumns (grid w5) = (Grid._pinnedColumns (grid w) ++ [this])%list).
  { subst w5. rewrite P4, HP3, (indexOf_missing _ _ Hnin).
    assert (Hgoal : JS.splice_insert idx this (Grid._pinnedColumns (grid w))
                    = (Grid._pinnedColumns (grid w) ++ [this])%list).
    { subst idx. rewrite HP3. apply splice_insert_end. }
    destruct (negb _); cbn [grid with_grid_columns Grid.with_columns Grid._pinnedColumns];
      exact Hgoal. }
  set (w7 := Host.resetCaches host w5).
  destruct (resetCaches_quiet host frame w5) as (P7 & _). fold w7 in P7.
  set (w8 := Host.notifyChanges host w7).
  destruct (notifyChanges_quiet host frame w7) as (P8 & _). fold w8 in P8.
  cbn [snd].
  assert (Hq : forall w9, same_pinning w8 w9 ->
                 Grid._pinnedColumns (grid (Host.refreshExpressions host w9))
                 = (Grid._pinnedColumns (grid w) ++ [this])%list).
  { intros w9 (P9 & _).
    destruct (refreshExpressions_quiet host frame w9) as (P10 & _).
    now rewrite P10, P9, P8, P7. }
  destruct (columnLayoutChild host w8 (columns w8 this)).
  - apply Hq. apply (populateVisibleIndexes_quiet host frame).
  - apply Hq. apply same_pinning_refl.
Qed.

Lemma still_host_keeps_index : keeps_insertAtIndex still_host.
Proof. intros r i b w. reflexivity. Qed.

Lemma pin_appends_witness :
  Grid._pinnedColumns (grid (snd (pin still_host 1%nat None sample_world)))
  = (Grid._pinnedColumns (grid sample_world) ++ [1%nat])%list.
Proof.
  apply pin_appends.
  - exact still_host_frame.
  - exact still_host_keeps_index.
  - reflexivity.
  - reflexivity.
  - apply (bool_decide_unpack _). vm_compute. exact I.
Defined.

(** X6: after [pinned] was assigned on a column without parent, [pinned]
    returns the value assigned, whether the setter went through [pin] or
    [unpin] or only recorded the state; assigning the value it has
    changes nothing. *)
Theorem pinned_setter (host : Host.t) (this : nat) (value : bool) (w : World) :
  HostFrame host ->
  parent (columns w this) = None ->
  pinned (columns (set_pinned host this value w) this) = value
  /\ (pinned (columns w this) = value -> set_pinned host this value w = w).
Proof.
  intros frame Hpar. unfold set_pinned, pinned. cbv zeta.
  destruct (Bool.eqb (_pinned (columns w this)) value) eqn:Heq; cbn [negb].
  - apply Bool.eqb_prop in Heq. split; [exact Heq | reflexivity].
  - split; [|intros H; rewrite H, Bool.eqb_reflx in Heq; discriminate].
    apply Bool.eqb_false_iff in Heq.
    destruct (_ && _).
    + destruct value.
      * assert (Hflag : _pinned (columns w this) = false)
          by (destruct (_pinned (columns w this)); congruence).
        destruct (pin_top_spec host frame this w Hflag Hpar) as (ins & w' & -> & H & _).
        exact H.
      * assert (Hflag : _pinned (columns w this) = true)
          by (destruct (_pinned (columns w this)); congruence).
        destruct (unpin_top_spec host frame this w Hflag Hpar) as (w' & -> & H & _).
        exact H.
    + match goal with
      | |- _pinned (columns (Host.pinnedChange_emit host this value ?w1) this) = _ =>
          destruct (pinnedChange_quiet host frame this value w1) as (_ & _ & _ & C1);
          destruct (C1 this) as (F1 & _); rewrite F1
      end.
      cbn. rewrite set_column_same. reflexivity.
Qed.

Lemma pinned_setter_witness :
  pinned (columns (set_pinned still_host 1%nat true sample_world) 1%nat) = true.
Proof.
  apply pinned_setter.
  - exact still_host_frame.
  - reflexivity.
Defined.

(** ** Widths: cell width, minimum width, calculated width *)

(** X7: the width of a cell.  A child of a column layout has the empty
    cell width.  Otherwise a width that is set and is no percentage comes
    back ending in ['px']: as it is when it already ends so, with ['px']
    appended when it does not; a percentage, an empty or a missing width
    comes back as it is. *)
Theorem cell_width (host : Host.t) (w : World) (c : Column) :
  (columnLayoutChild host w c = true -> getCellWidth host w c = Some "")
  /\ (columnLayoutChild host w c = false ->
      match width c with
      | None => getCellWidth host w c = None
      | Some s =>
          if JS.string_truthy s && negb (JS.contains_char "%" s)
          then exists r, getCellWidth host w c = Some r
                         /\ JS.ends_with "px" r = true
                         /\ (JS.ends_with "px" s = true -> r = s)
                         /\ (JS.ends_with "px" s = false -> r = (s ++ "px")%string)
          else getCellWidth host w c = Some s
      end).
Proof.
  unfold getCellWidth. split; intros Hl; rewrite Hl; [reflexivity|].
  destruct (width c) as [s|]; [|reflexivity]. unfold default. cbn [truthyS from_option id].
  destruct (JS.string_truthy s) eqn:Hs; cbn [andb]; [|reflexivity].
  destruct (JS.contains_char "%" s); cbn [negb]; [reflexivity|].
  destruct (JS.ends_with "px" s) eqn:He; cbn [negb].
  - exists s. repeat split; [exact He | discriminate].
  - exists (s ++ "px")%string. repeat split; [apply ends_with_append | discriminate].
Qed.

Lemma cell_width_witness :
  getCellWidth still_host sample_world (set_width None (JS.Str "100") new_column)
  = Some "100px".
Proof.
  destruct (cell_width still_host sample_world (set_width None (JS.Str "100") new_column))
    as [_ H].
  specialize (H eq_refl). vm_compute in H. destruct H as (r & Hr & _ & Hsame & _).
  rewrite (Hsame eq_refl) in Hr. exact Hr.
Defined.

Lemma minWidth_assignments_stored (values : list string) :
  forall c,
    minWidth_assignments values c
    = with_defaultMinWidth c (default (_defaultMinWidth c) (last (parsed_values values))).
Proof.
  induction values as [|v values IH]; intros c; cbn [minWidth_assignments fold_left].
  - now destruct c.
  - fold (minWidth_assignments values (set_minWidth v c)). rewrite IH.
    unfold set_minWidth, parsed_values. cbn [List.filter].
    destruct (JS.parseFloat_isNaN v); cbn [negb]; [reflexivity|].
    fold (parsed_values values).
    destruct (parsed_values values) as [|x l] eqn:Hl; [reflexivity|].
    rewrite last_cons_cons.
    destruct (last (x :: l)) eqn:Hlast; [reflexivity|].
    apply last_None in Hlast. discriminate.
Qed.

Lemma parsed_values_again (values : list string) :
  parsed_values (parsed_values values) = parsed_values values.
Proof.
  unfold parsed_values. induction values as [|v l IH]; cbn [List.filter]; [reflexivity|].
  destruct (JS.parseFloat_isNaN v) eqn:Hv; cbn [negb List.filter]; [exact IH|].
  rewrite Hv. cbn [negb]. now f_equal.
Qed.

(** X8: whatever is assigned to [minWidth], in whatever order, on a new
    column, a value that [parseFloat] does not read as a number never
    gets in: the assignment leaves the column as it is, so the column is
    as if only the other values had been assigned, and it stores the
    last of them.  [minWidth] then returns that value, and the default of
    the display density while no value was accepted; either way a string
    that [parseFloat] reads as a number. *)
Theorem minWidth_always_numeric (g : option Grid.t) (values : list string) :
  JS.parseFloat_isNaN (minWidth g (minWidth_assignments values new_column)) = false
  /\ (forall c v, JS.parseFloat_isNaN v = true -> set_minWidth v c = c)
  /\ minWidth_assignments values new_column
     = minWidth_assignments (parsed_values values) new_column
  /\ minWidth_assignments values new_column
     = with_defaultMinWidth new_column (default "" (last (parsed_values values)))
  /\ minWidth g (minWidth_assignments values new_column)
     = default (defaultMinWidth g) (last (parsed_values values)).
Proof.
  assert (Hparsed : forall v, last (parsed_values values) = Some v ->
                              JS.parseFloat_isNaN v = false).
  { intros v Hv. apply last_Some_elem_of in Hv. apply list_elem_of_In in Hv.
    apply filter_In in Hv as [_ Hv]. now apply negb_true_iff in Hv. }
  assert (Hget : minWidth g (minWidth_assignments values new_column)
                 = default (defaultMinWidth g) (last (parsed_values values))).
  { rewrite minWidth_assignments_stored. unfold minWidth.
    cbn [with_defaultMinWidth _defaultMinWidth new_column].
    destruct (last (parsed_values values)) as [v|] eqn:Hlast; unfold default; cbn.
    - now rewrite (parseFloat_number_nonempty v (Hparsed v eq_refl)).
    - reflexivity. }
  split; [|split; [|split; [|split]]].
  - rewrite Hget. destruct (last (parsed_values values)) as [v|] eqn:Hlast; unfold default; cbn.
    + now apply Hparsed.
    + unfold defaultMinWidth.
      destruct g as [g|]; [destruct (Grid.displayDensity g)|]; reflexivity.
  - intros c v Hv. unfold set_minWidth. now rewrite Hv.
  - now rewrite (minWidth_assignments_stored (parsed_values values)), parsed_values_again,
      <- minWidth_assignments_stored.
  - apply minWidth_assignments_stored.
  - exact Hget.
Qed.

(** X9: reading [calcWidth] a second time returns the value of the first
    read and leaves the column as the first read left it. *)
Theorem getCalcWidth_idempotent (g : Grid.t) (c : Column) :
  getCalcWidth g (snd (getCalcWidth g c)) = getCalcWidth g c.
Proof.
  unfold getCalcWidth. destruct (calcWidth_cached c) eqn:Hc; cbn [snd].
  - now rewrite Hc.
  - destruct (calcWidth_cached (cacheCalcWidth g c)); reflexivity.
Qed.

(** X10: a width assigned before the column has its grid and a width
    assigned once it has evaluate to the same [calcWidth]: the setter
    empties the cache, and the next read fills it from the new width. *)
Theorem width_then_calcWidth (g : Grid.t) (value : JS.value) (c : Column) :
  calcWidth g (set_width None value c) = calcWidth g (set_width (Some g) value c)
  /\ (JS.ToBoolean value = true ->
      forall s, _width (set_width None value c) = Some s ->
        calcWidth g (set_width None value c)
        = if JS.contains_char "%" s
          then JS.Number (JS.parseInt10_string s / JS.float_of_Z 100
                          * (Grid.calcWidth g - Grid.featureColumnsWidth g))%float
          else JS.Str s).
Proof.
  unfold set_width. destruct (JS.ToBoolean value) eqn:Hv; [|split; [reflexivity | discriminate]].
  set (c2 := with_width _ _ _).
  split.
  - unfold calcWidth, getCalcWidth. cbn [fst].
    assert (Hc2 : calcWidth_cached c2 = false) by reflexivity.
    rewrite Hc2. destruct (calcWidth_cached (cacheCalcWidth g c2)); reflexivity.
  - intros _ s Hs. unfold calcWidth, getCalcWidth.
    assert (Hc2 : calcWidth_cached c2 = false) by reflexivity.
    rewrite Hc2. cbn [fst]. unfold cacheCalcWidth.
    assert (Hw : width c2 = Some s) by (unfold width; cbn; exact Hs).
    rewrite Hw. unfold default. cbn [with_calc _calcWidth from_option id truthyS].
    assert (Hne : JS.string_truthy s = true).
    { unfold c2 in Hs. cbn [_width with_width] in Hs. injection Hs as <-.
      destruct value as [| |x|t]; try discriminate Hv.
      - cbn [plain_number]. destruct (JS.ToString (JS.Number x)); reflexivity.
      - cbn [plain_number JS.ToString]. destruct (JS.all_digits t); [|exact Hv].
        destruct t; reflexivity. }
    rewrite Hne. cbn [andb negb]. destruct (JS.contains_char "%" s); reflexivity.
Qed.

(** ** Parents: level and top-level parent *)

Lemma level_from_shift (cols : Columns) (fuel : nat) :
  forall ptr lvl d,
    level_from fuel cols ptr (lvl + d) = (fun k => k + d) <$> level_from fuel cols ptr lvl.
Proof.
  induction fuel as [|fuel IH]; intros [p|] lvl d; cbn; try reflexivity.
  replace (lvl + d + 1) with (lvl + 1 + d) by lia. apply IH.
Qed.

Lemma level_from_more (cols : Columns) (fuel : nat) :
  forall ptr lvl k,
    level_from fuel cols ptr lvl = Some k -> level_from (S fuel) cols ptr lvl = Some k.
Proof.
  induction fuel as [|fuel IH]; intros [p|] lvl k; cbn; try discriminate; auto.
  intros H. now apply IH in H.
Qed.

Lemma level_from_ends (cols : Columns) :
  parents_first cols ->
  forall fuel ptr lvl,
    (forall p, ptr = Some p -> (p < fuel)%nat) ->
    exists k, level_from fuel cols ptr lvl = Some k
              /\ lvl <= k /\ (k = lvl <-> ptr = None).
Proof.
  intros Hpf. induction fuel as [|fuel IH]; intros [p|] lvl Hp.
  - specialize (Hp p eq_refl). lia.
  - exists lvl. cbn. repeat split; auto; lia.
  - cbn. destruct (IH (parent (cols p)) (lvl + 1)) as (k & Hk & Hle & _).
    + intros q Hq. specialize (Hp p eq_refl). apply Hpf in Hq. lia.
    + exists k. split; [exact Hk|]. split; [lia|]. split; [lia | discriminate].
  - exists lvl. cbn. repeat split; auto; lia.
Qed.

Lemma topLevelParent_from_ends (cols : Columns) :
  parents_first cols ->
  forall fuel par,
    (forall p, par = Some p -> (p <= fuel)%nat) ->
    exists t, topLevelParent_from fuel cols par = Some t
              /\ (t = None <-> par = None)
              /\ (forall r, t = Some r -> parent (cols r) = None).
Proof.
  intros Hpf. induction fuel as [|fuel IH]; intros [p|] Hp.
  - cbn. destruct (parent (cols p)) as [q|] eqn:Hq.
    + apply Hpf in Hq. specialize (Hp p eq_refl). lia.
    + exists (Some p). repeat split; try discriminate. intros r [= <-]. exact Hq.
  - exists None. cbn. repeat split; auto; discriminate.
  - cbn. destruct (parent (cols p)) as [q|] eqn:Hq.
    + destruct (IH (Some q)) as (t & Ht & Hnone & Htop).
      * intros q' [= <-]. apply Hpf in Hq. specialize (Hp p eq_refl). lia.
      * exists t. split; [exact Ht|]. split; [|exact Htop].
        split; [intros H; apply Hnone in H; discriminate | discriminate].
    + exists (Some p). repeat split; try discriminate. intros r [= <-]. exact Hq.
  - exists None. cbn. repeat split; auto; discriminate.
Qed.

(** X11: in a tree of columns the walk up the parents ends.  [level] is 0
    exactly for a column without parent and one more than the level of
    the parent otherwise; [topLevelParent] is null exactly for a column
    without parent, and otherwise a column that has none. *)
Theorem level_and_topLevelParent (cols : Columns) (this : nat) :
  parents_first cols ->
  exists k t,
    level this cols this = Some k
    /\ topLevelParent this cols this = Some t
    /\ 0 <= k
    /\ (k = 0 <-> parent (cols this) = None)
    /\ (t = None <-> parent (cols this) = None)
    /\ (forall r, t = Some r -> parent (cols r) = None)
    /\ (forall p, parent (cols this) = Some p -> level this cols p = Some (k - 1)).
Proof.
  intros Hpf. unfold level, topLevelParent.
  destruct (level_from_ends cols Hpf this (parent (cols this)) 0) as (k & Hk & Hle & Hzero).
  { intros p Hp. now apply Hpf in Hp. }
  destruct (topLevelParent_from_ends cols Hpf this (parent (cols this))) as (t & Ht & Hnone & Htop).
  { intros p Hp. apply Hpf in Hp. lia. }
  exists k, t. repeat split; try assumption; try apply Hzero; try apply Hnone.
  intros p Hp. rewrite Hp in Hk.
  destruct this as [|n]; [apply Hpf in Hp; lia|]. cbn [level_from] in Hk.
  change 1 with (0 + 1) in Hk. rewrite level_from_shift in Hk.
  destruct (level_from n cols (parent (cols p)) 0) as [k'|] eqn:Hk'; [|discriminate].
  cbn in Hk. injection Hk as <-. apply level_from_more in Hk'. rewrite Hk'.
  f_equal. lia.
Qed.

Lemma level_and_topLevelParent_witness :
  exists k t, level 2 family 2%nat = Some k
              /\ topLevelParent 2 family 2%nat = Some t
              /\ 0 <= k
              /\ (forall p, parent (family 2%nat) = Some p -> level 2 family p = Some (k - 1)).
Proof.
  destruct (level_and_topLevelParent family 2%nat) as (k & t & Hk & Ht & Hle & _ & _ & _ & Hp).
  - intros r p H. unfold family, columns_of in H.
    do 3 (destruct r as [|r]; [cbn in H; inversion H; lia|]).
    destruct r; discriminate H.
  - exists k, t. auto.
Defined.

(** ** Collapsible groups *)

Lemma existsb_elem_of {A : Type} (f : A -> bool) (l : list A) :
  existsb f l = true <-> exists x, x ∈ l /\ f x = true.
Proof.
  rewrite existsb_exists. split; intros (x & Hx & Hf); exists x; split; auto;
    now apply list_elem_of_In.
Qed.

(** X12: a group is collapsible exactly when one of its children is
    visible when collapsed and another is not; a child that leaves the
    property undefined counts for neither, and a group with fewer than two
    children, or whose children are not there yet, is never collapsible. *)
Theorem collapsible_state (v : nat -> option bool) (children : option (list nat)) :
  (checkCollapsibleState v children = true <->
   exists l, children = Some l
             /\ (exists r, r ∈ l /\ v r = Some true)
             /\ (exists r, r ∈ l /\ v r = Some false))
  /\ (forall l, children = Some l -> (length l < 2)%nat ->
                checkCollapsibleState v children = false).
Proof.
  assert (Hiff : forall l, checkCollapsibleState v (Some l) = true <->
                   (exists r, r ∈ l /\ v r = Some true)
                   /\ (exists r, r ∈ l /\ v r = Some false)).
  { intros l. unfold checkCollapsibleState. rewrite andb_true_iff, !existsb_elem_of.
    split.
    - intros [(x & Hx & Hfx) (y & Hy & Hfy)].
      apply list_elem_of_fmap in Hx as (r & -> & Hr).
      apply list_elem_of_fmap in Hy as (r' & -> & Hr').
      split; [exists r | exists r']; (split; [assumption|]).
      + destruct (v r) as [[|]|]; congruence.
      + destruct (v r') as [[|]|]; congruence.
    - intros [(r & Hr & Hvr) (r' & Hr' & Hvr')]. split.
      + exists (v r). split; [now apply list_elem_of_fmap_2 | now rewrite Hvr].
      + exists (v r'). split; [now apply list_elem_of_fmap_2 | now rewrite Hvr']. }
  split.
  - destruct children as [l|].
    + rewrite Hiff. split.
      * intros H. exists l. split; [reflexivity | exact H].
      * intros (l' & [= <-] & H). exact H.
    + cbn. split; [discriminate | intros (l & Hl & _); discriminate].
  - intros l -> Hlen. apply not_true_is_false. intros H. apply Hiff in H.
    destruct H as [(r & Hr & Hvr) (r' & Hr' & Hvr')].
    destruct l as [|a [|b l]]; cbn in Hlen; try lia.
    + inversion Hr.
    + apply list_elem_of_singleton in Hr, Hr'. congruence.
Qed.

(** ** The targets of a resize *)

Section ResizeProofs.

Variable field : nat -> option string.

Lemma total_span_app (l1 l2 : list MRLResizeColumnInfo) :
  total_span (l1 ++ l2) = total_span l1 + total_span l2.
Proof.
  induction l1 as [|t l1 IH]; [reflexivity|].
  change (spanUsed t + total_span (l1 ++ l2) = spanUsed t + total_span l1 + total_span l2).
  rewrite IH. lia.
Qed.

Lemma total_span_rev (l : list MRLResizeColumnInfo) : total_span (rev l) = total_span l.
Proof.
  induction l as [|t l IH]; [reflexivity|].
  cbn [rev]. rewrite total_span_app, IH. unfold total_span. cbn. lia.
Qed.

(** The accumulator of the squashing, last target first, has distinct
    neighbours as well. *)
Lemma distinct_neighbours_snoc (l : list MRLResizeColumnInfo) (a t : MRLResizeColumnInfo) :
  distinct_neighbours field (l ++ [a]) ->
  same_field field (target a) (target t) = false ->
  distinct_neighbours field ((l ++ [a]) ++ [t]).
Proof.
  induction l as [|x l IH]; intros Hd Hne; cbn.
  - split; [exact Hne | exact I].
  - destruct l as [|y l]; cbn in *.
    + destruct Hd as [Hxa _]. repeat split; assumption.
    + destruct Hd as [Hxy Hd]. split; [exact Hxy|]. now apply IH.
Qed.

Lemma distinct_neighbours_retarget (l : list MRLResizeColumnInfo) (a : MRLResizeColumnInfo) (n : Z) :
  distinct_neighbours field (l ++ [a]) ->
  distinct_neighbours field (l ++ [{| target := target a; spanUsed := n |}]).
Proof.
  induction l as [|x l IH]; intros Hd; cbn; [exact I|].
  destruct l as [|y l]; cbn in *.
  - destruct Hd as [Hxa _]. split; [exact Hxa | exact I].
  - destruct Hd as [Hxy Hd]. split; [exact Hxy|]. now apply IH.
Qed.

Lemma squash_spec (targets : list MRLResizeColumnInfo) :
  Forall (fun t => spanUsed t = 1) targets ->
  forall acc,
    distinct_neighbours field (rev acc) ->
    total_span (squash field targets acc) = total_span acc + Z.of_nat (length targets)
    /\ distinct_neighbours field (squash field targets acc)
    /\ (forall t, t ∈ squash field targets acc ->
                  exists t', (t' ∈ targets \/ t' ∈ acc) /\ target t = target t')
    /\ (length (squash field targets acc) <= length acc + length targets)%nat.
Proof.
  induction targets as [|t rest IH]; intros Hone acc Hacc; cbn [squash].
  - split; [rewrite total_span_rev; cbn; lia|]. split; [exact Hacc|]. split.
    + intros t Ht. exists t. split; [right | reflexivity].
      apply list_elem_of_In, in_rev, list_elem_of_In. exact Ht.
    + rewrite length_rev. cbn. lia.
  - apply Forall_cons in Hone as [Ht Hrest].
    destruct acc as [|last acc'].
    + destruct (IH Hrest [t]) as (H1 & H2 & H3 & H4); [exact I|].
      split; [rewrite H1; cbn; lia|]. split; [exact H2|]. split.
      * intros x Hx. destruct (H3 x Hx) as (t' & [Hin | Hin] & Heq);
          exists t'; (split; [|exact Heq]); left.
        -- now right.
        -- apply list_elem_of_singleton in Hin as ->. now left.
      * cbn in *. lia.
    + destruct (same_field field (target last) (target t)) eqn:Hsame.
      * destruct (IH Hrest ({| target := target last; spanUsed := spanUsed last + 1 |} :: acc'))
          as (H1 & H2 & H3 & H4).
        { cbn [rev] in *. now apply distinct_neighbours_retarget. }
        split; [rewrite H1; cbn; lia|]. split; [exact H2|]. split.
        -- intros x Hx. destruct (H3 x Hx) as (t' & [Hin | Hin] & Heq).
           ++ exists t'. split; [left; now right | exact Heq].
           ++ apply elem_of_cons in Hin as [-> | Hin].
              ** exists last. split; [right; now left | exact Heq].
              ** exists t'. split; [right; now right | exact Heq].
        -- cbn in *. lia.
      * destruct (IH Hrest (t :: last :: acc')) as (H1 & H2 & H3 & H4).
        { cbn [rev] in *. now apply distinct_neighbours_snoc. }
        split; [rewrite H1; cbn; lia|]. split; [exact H2|]. split.
        -- intros x Hx. destruct (H3 x Hx) as (t' & [Hin | Hin] & Heq).
           ++ exists t'. split; [left; now right | exact Heq].
           ++ apply elem_of_cons in Hin as [-> | Hin].
              ** exists t. split; [left; now left | exact Heq].
              ** exists t'. split; [right; exact Hin | exact Heq].
        -- cbn in *. lia.
Qed.

Lemma resize_targets_spec (s e : Z) (a : ColumnSizes.t) (n : nat) :
  forall i,
    ((exists k, i <= k < i + Z.of_nat n /\ in_range s e k /\ ColumnSizes.get a k = None) ->
     resize_targets n i (Some s) (Some e) a = TypeError)
    /\ ((forall k, i <= k < i + Z.of_nat n -> in_range s e k ->
                   is_Some (ColumnSizes.get a k)) ->
        exists l, resize_targets n i (Some s) (Some e) a = Returned l
                  /\ Z.of_nat (length l)
                     = Z.max 0 (Z.min (i + Z.of_nat n) (e - 1) - Z.max i (s - 1))
                  /\ Forall (fun t => spanUsed t = 1) l
                  /\ Forall (fun t => exists k x, in_range s e k
                                                  /\ ColumnSizes.get a k = Some x
                                                  /\ target t = MRLColumnSizeInfo.ref x) l).
Proof.
  unfold in_range. induction n as [|n IH]; intros i; cbn [resize_targets].
  - split; [intros (k & Hk & _); lia|]. intros _. exists []. cbn. repeat split; try constructor. lia.
  - destruct (IH (i + 1)) as [IHbad IHgood].
    destruct ((s <=? i + 1) && (i + 1 <? e)) eqn:Hin.
    + apply andb_true_iff in Hin as [H1 H2]. apply Z.leb_le in H1. apply Z.ltb_lt in H2.
      destruct (ColumnSizes.get a i) as [x|] eqn:Hget.
      * split.
        -- intros (k & Hk & Hr & Hnone).
           destruct (Z.eq_dec k i) as [-> | Hne]; [congruence|].
           rewrite IHbad; [reflexivity|]. exists k. repeat split; try lia. exact Hnone.
        -- intros Hall. destruct IHgood as (l & -> & Hlen & Hone & Href).
           { intros k Hk. apply Hall. lia. }
           eexists. split; [reflexivity|]. cbn [length].
           split; [lia|]. split; constructor; auto.
           exists i, x. repeat split; auto.
      * split; [reflexivity|]. intros Hall.
        destruct (Hall i) as [x Hx]; [lia | lia | congruence].
    + apply andb_false_iff in Hin. split.
      * intros (k & Hk & Hr & Hnone). apply IHbad. exists k.
        destruct (Z.eq_dec k i) as [-> | Hne].
        -- exfalso. destruct Hin as [H | H]; [apply Z.leb_gt in H | apply Z.ltb_ge in H]; lia.
        -- repeat split; try lia. exact Hnone.
      * intros Hall. destruct IHgood as (l & -> & Hlen & Hone & Href).
        { intros k Hk. apply Hall. lia. }
        exists l. split; [reflexivity|]. split; [|split; assumption].
        destruct Hin as [H | H]; [apply Z.leb_gt in H | apply Z.ltb_ge in H]; lia.
Qed.

End ResizeProofs.

(** X13: the columns a resize under the end of a layout child acts on.  A
    column that is no child of a column layout is its own target.  For a
    child that starts at [s], the call throws when a slot of the
    reconciled array in the range of the column is a hole; otherwise the
    spans of the targets add up to the number of slots of the array in
    that range, no two neighbouring targets have the same [field], and
    every target is the column of one of those slots. *)
Theorem resize_targets_under_end
    (host : Host.t) (field : nat -> option string) (children_of : nat -> list nat)
    (w : World) (this : nat) :
  (columnLayoutChild host w (columns w this) = false ->
   getResizableColUnderEnd host field children_of w this
   = Some (columns w, Returned [{| target := this; spanUsed := 1 |}]))
  /\ (forall p s,
        columnLayoutChild host w (columns w this) = true ->
        parent (columns w this) = Some p ->
        colStart (columns w this) = Some s ->
        exists cols' a,
          getInitialChildColumnSizes (grid w) (columns w) (children_of p) = Some (cols', a)
          /\ let e := if truthyZ (colEnd (columns w this))
                      then num (colEnd (columns w this)) else s + 1 in
             ((exists k, 0 <= k < ColumnSizes.length a /\ in_range s e k
                         /\ ColumnSizes.get a k = None) ->
              getResizableColUnderEnd host field children_of w this = Some (cols', TypeError))
             /\ ((forall k, 0 <= k < ColumnSizes.length a -> in_range s e k ->
                            is_Some (ColumnSizes.get a k)) ->
                 exists l,
                   getResizableColUnderEnd host field children_of w this
                   = Some (cols', Returned l)
                   /\ total_span l
                      = Z.max 0 (Z.min (ColumnSizes.length a) (e - 1) - Z.max 0 (s - 1))
                   /\ distinct_neighbours field l
                   /\ forall t, t ∈ l ->
                        exists k x, in_range s e k /\ ColumnSizes.get a k = Some x
                                    /\ target t = MRLColumnSizeInfo.ref x)).
Proof.
  split.
  - intros Hl. unfold getResizableColUnderEnd. now rewrite Hl.
  - intros p s Hl Hp Hs.
    destruct (getInitial_result (grid w) (columns w) (children_of p))
      as (cols' & a1 & a & _ & _ & Hr).
    exists cols', a. split; [exact Hr|]. cbv zeta.
    unfold getResizableColUnderEnd. rewrite Hl, Hp, Hr, Hs. cbn [negb orb columnGroup].
    set (e := if truthyZ (colEnd (columns w this))
              then num (colEnd (columns w this)) else s + 1).
    assert (He : (if truthyZ (colEnd (columns w this))
                  then colEnd (columns w this) else Some (s + 1)) = Some e).
    { subst e. destruct (colEnd (columns w this)) as [z|]; cbn; [|reflexivity].
      destruct (negb (z =? 0)); reflexivity. }
    rewrite He.
    destruct (resize_targets_spec s e a (Z.to_nat (ColumnSizes.length a)) 0) as [Hbad Hgood].
    split.
    + intros (k & Hk & Hin & Hnone). rewrite Hbad; [reflexivity|].
      exists k. split; [lia|]. split; assumption.
    + intros Hall. destruct Hgood as (l & -> & Hlen & Hone & Href).
      { intros k Hk. apply Hall. lia. }
      destruct (squash_spec field l Hone []) as (H1 & H2 & H3 & _); [exact I|].
      exists (squash field l []). split; [reflexivity|]. split; [|split; [exact H2|]].
      * rewrite H1. cbn. lia.
      * intros t Ht. destruct (H3 t Ht) as (t' & [Hin | Hin] & Heq); [|inversion Hin].
        rewrite Forall_forall in Href. destruct (Href t' Hin) as (k & x & Hk & Hx & Htx).
        exists k, x. split; [exact Hk|]. split; [exact Hx | congruence].
Qed.

(** In the layout with a gap, the resize under the end of the column
    over slots 1 to 3 meets the hole of slot 2 and throws. *)
Lemma resize_targets_under_end_witness :
  option_map snd (getResizableColUnderEnd layout_host (fun _ => None) (fun _ => [1; 2; 3]%nat)
                    gapped_world 1%nat)
  = Some TypeError.
Proof.
  destruct (resize_targets_under_end layout_host (fun _ => None) (fun _ => [1; 2; 3]%nat)
              gapped_world 1%nat) as [_ H].
  destruct (H 0%nat 1 eq_refl eq_refl eq_refl) as (cols' & a & Ha & Hthrow & _).
  rewrite Hthrow; [reflexivity|].
  exists 1. vm_compute in Ha. injection Ha as _ <-. vm_compute.
  split; [split; [discriminate | reflexivity]|]. split; [split; [discriminate | reflexivity] | reflexivity].
Defined.

(** ** More on the reconciliation *)

(** The objects of the returned array, each built for its column or
    flattened from one. *)
Lemma getInitial_built (g : Grid.t) (cols : Columns) (children : list nat) :
  exists cols' a,
    getInitialChildColumnSizes g cols children = Some (cols', a)
    /\ forall i e, ColumnSizes.get a i = Some e -> built g cols e.
Proof.
  destruct (getInitial_result g cols children) as (cols' & a1 & a & Hf & Hfl & Hr).
  exists cols', a. split; [exact Hr|]. intros i e Hget.
  assert (H1 : first_pass_inv g cols (cols', a1)).
  { rewrite <- Hf. apply fold_place_inv.
    split; [apply cache_only_refl|]. split; [apply well_formed_empty | constructor]. }
  destruct H1 as (_ & Hwf & Hobj). cbn [snd] in Hwf, Hobj.
  assert (H2 : second_pass_inv g cols (ColumnSizes.length a) a).
  { apply (flatten_from_inv g cols (Z.to_nat (flatten_bound a1)) 0 a1 a); [lia | | exact Hfl].
    split; [exact Hwf|]. split.
    - eapply Forall_impl; [exact Hobj|]. intros x Hx. now left.
    - intros k x Hk. lia. }
  destruct H2 as (_ & Hbuilt & _).
  unfold ColumnSizes.get in Hget.
  destruct (ColumnSizes.slots a !! i) as [l|]; [|discriminate].
  rewrite Forall_lookup in Hbuilt. exact (Hbuilt _ _ Hget).
Qed.

(** X14: a width that was not set by the user is never divided.  An
    object of the returned array whose column has no width of its own
    carries the calculated width of the column, whole, when a width was
    set for all the columns of the grid, and null otherwise, however many
    slots the column spans; and every object ends where its column
    does. *)
Theorem reconciliation_keeps_grid_widths
    (g : Grid.t) (cols : Columns) (children : list nat) :
  exists cols' a,
    getInitialChildColumnSizes g cols children = Some (cols', a)
    /\ forall i e,
         ColumnSizes.get a i = Some e ->
         let c := cols (MRLColumnSizeInfo.ref e) in
         MRLColumnSizeInfo.colEnd e = num (colStart c) + gridColumnSpan c
         /\ (truthyB (widthSetByUser c) = false ->
             MRLColumnSizeInfo.width e
             = if Grid.columnWidthSetByUser g
               then Some (JS.parseInt10 (calcWidth g c)) else None).
Proof.
  destruct (getInitial_built g cols children) as (cols' & a & Hr & Hb).
  exists cols', a. split; [exact Hr|]. intros i e Hget c.
  destruct (Hb i e Hget) as [Ho | (o & Ho & Hspan & ->)]; subst c.
  - rewrite Ho. cbn. split; [reflexivity|]. intros Hw. now rewrite Hw.
  - cbn [flattened MRLColumnSizeInfo.ref MRLColumnSizeInfo.colEnd MRLColumnSizeInfo.width].
    rewrite Ho. cbn [info_of MRLColumnSizeInfo.ref MRLColumnSizeInfo.colEnd].
    split; [reflexivity|]. intros Hw. unfold shared_width. cbn. now rewrite Hw.
Qed.

(** X15: a child without [colStart] (undefined or 0) is skipped: the
    array returned, and the columns afterwards, are those of the call on
    the children that have one. *)
Theorem reconciliation_skips_unplaced (g : Grid.t) (cols : Columns) (children : list nat) :
  getInitialChildColumnSizes g cols children
  = getInitialChildColumnSizes g cols
      (List.filter (fun r => truthyZ (colStart (cols r))) children).
Proof.
  assert (Hfold : forall l (st : Columns * ColumnSizes.t),
            cache_only g cols (fst st) ->
            fold_left (place g) l st
            = fold_left (place g) (List.filter (fun r => truthyZ (colStart (cols r))) l) st).
  { induction l as [|r l IH]; intros [cols1 a1] Hc; cbn [fold_left List.filter]; [reflexivity|].
    cbn [fst] in Hc.
    assert (Hcs : colStart (cols1 r) = colStart (cols r)).
    { destruct (Hc r) as [Hs _]. now apply same_but_cache_fields in Hs. }
    destruct (truthyZ (colStart (cols r))) eqn:Ht.
    - cbn [fold_left]. apply IH.
      destruct (place_cache g cols1 a1 r) as [Hc' _].
      eapply cache_only_trans; eassumption.
    - assert (Hskip : place g (cols1, a1) r = (cols1, a1)).
      { unfold place. now rewrite Hcs, Ht. }
      rewrite Hskip. now apply IH. }
  unfold getInitialChildColumnSizes.
  rewrite (Hfold children (cols, ColumnSizes.empty)) by apply cache_only_refl.
  reflexivity.
Qed.

(** ** Every slot under its column *)

Lemma get_copy_slot (a : ColumnSizes.t) (k i i' : Z) (e : MRLColumnSizeInfo.t) :
  ColumnSizes.get (ColumnSizes.copy_slot a k i) i' = Some e ->
  (i' = i /\ ColumnSizes.get a k = Some e) \/ ColumnSizes.get a i' = Some e.
Proof.
  unfold ColumnSizes.copy_slot, ColumnSizes.get.
  destruct (ColumnSizes.slots a !! k) as [l|] eqn:Hl; [|now right].
  cbn. rewrite lookup_insert. case_decide as Hd.
  - subst i'. intros H. now left.
  - intros H. now right.
Qed.

Lemma get_copy_slot_source (a : ColumnSizes.t) (k i : Z) :
  k <> i -> ColumnSizes.get (ColumnSizes.copy_slot a k i) k = ColumnSizes.get a k.
Proof.
  intros Hne. unfold ColumnSizes.copy_slot, ColumnSizes.get.
  destruct (ColumnSizes.slots a !! k) as [l|] eqn:Hl.
  - cbn. rewrite lookup_insert_ne by congruence. now rewrite Hl.
  - now rewrite Hl.
Qed.

Lemma get_elem_of (a : ColumnSizes.t) (i : Z) (e : MRLColumnSizeInfo.t) :
  ColumnSizes.get a i = Some e -> e ∈ ColumnSizes.objects a.
Proof.
  unfold ColumnSizes.get. destruct (ColumnSizes.slots a !! i) as [l|]; [|discriminate].
  apply list_elem_of_lookup_2.
Qed.

(** The object of slot [k] after an update of the object [l]: the one
    that was there, made over when it is the object [l]. *)
Lemma get_update_from (a : ColumnSizes.t) (l : nat) (e x : MRLColumnSizeInfo.t) (k : Z) :
  ColumnSizes.get (ColumnSizes.update a l e) k = Some x ->
  exists y, ColumnSizes.get a k = Some y
            /\ (x = y \/ (x = e /\ ColumnSizes.objects a !! l = Some y)).
Proof.
  unfold ColumnSizes.get. cbn.
  destruct (ColumnSizes.slots a !! k) as [l'|]; [|discriminate].
  destruct (Nat.eq_dec l l') as [<-|Hne].
  - intros H. apply list_lookup_insert_Some in H as [(_ & -> & Hlt) | (Hne & H)].
    + destruct (lookup_lt_is_Some_2 _ _ Hlt) as [y Hy]. exists y. split; [exact Hy|]. right. now split.
    + exists x. split; [exact H | now left].
  - rewrite list_lookup_insert_ne by exact Hne. intros H. exists x. split; [exact H | now left].
Qed.

Section Covered.

Variable g : Grid.t.
Variable cols0 : Columns.
Variable children : list nat.
Hypothesis positive : spans_positive cols0 children.

Lemma covered_set_new (a : ColumnSizes.t) (i : Z) (e : MRLColumnSizeInfo.t) :
  well_formed a -> covered cols0 children a -> covers cols0 children i e ->
  covered cols0 children (ColumnSizes.set_new a i e).
Proof.
  intros Hwf Hcov He k x Hget. destruct (Z.eq_dec k i) as [->|Hne].
  - rewrite get_set_new_same in Hget. now injection Hget as <-.
  - rewrite get_set_new_other in Hget by assumption. now apply Hcov.
Qed.

Lemma covers_slot (k i : Z) (e : MRLColumnSizeInfo.t) :
  covers cols0 children k e -> k <= i ->
  i < num (colStart (cols0 (MRLColumnSizeInfo.ref e))) - 1
      + gridColumnSpan (cols0 (MRLColumnSizeInfo.ref e)) ->
  covers cols0 children i e.
Proof.
  intros (H1 & H2 & H3 & H4) Hle Hlt. split; [exact H1|]. split; [exact H2|].
  split; [lia | exact H4].
Qed.

Lemma spread_old_covered (old : MRLColumnSizeInfo.t) (k : Z) (n : nat) :
  forall i (a : ColumnSizes.t),
    well_formed a -> covered cols0 children a ->
    ColumnSizes.get a k = Some old -> k < i ->
    ((0 < n)%nat -> i + Z.of_nat n <= MRLColumnSizeInfo.colEnd old - 1) ->
    covered cols0 children (spread_old n i k a).
Proof.
  induction n as [|n IH]; intros i a Hwf Hcov Hold Hk Hn; cbn [spread_old]; [exact Hcov|].
  destruct (ColumnSizes.open_slot a i); [|exact Hcov].
  apply IH.
  - now apply well_formed_copy_slot.
  - intros i' x Hget. apply get_copy_slot in Hget as [[-> Hget] | Hget]; [|now apply Hcov].
    rewrite Hold in Hget. injection Hget as <-.
    pose proof (Hcov k old Hold) as Hc.
    apply (covers_slot k); [exact Hc | lia |].
    destruct Hc as (_ & _ & _ & H4). lia.
  - rewrite get_copy_slot_source by lia. exact Hold.
  - lia.
  - lia.
Qed.

Lemma covers_info_of (cols : Columns) (r : nat) (i : Z) :
  cache_only g cols0 cols -> r ∈ children -> truthyZ (colStart (cols0 r)) = true ->
  num (colStart (cols0 r)) - 1 <= i < num (colStart (cols0 r)) - 1 + gridColumnSpan (cols0 r) ->
  covers cols0 children i (info_of g r (cols r)).
Proof.
  intros Hc Hr Ht Hi. rewrite (info_of_cache_only g cols0 cols r Hc).
  unfold covers. cbn [info_of MRLColumnSizeInfo.ref MRLColumnSizeInfo.colEnd].
  split; [exact Hr|]. split; [exact Ht|]. split; [exact Hi | reflexivity].
Qed.

Lemma spread_new_covered (r : nat) (n : nat) :
  r ∈ children -> truthyZ (colStart (cols0 r)) = true ->
  forall i (cols : Columns) (a : ColumnSizes.t),
    first_pass_inv g cols0 (cols, a) -> covered cols0 children a ->
    num (colStart (cols0 r)) - 1 <= i ->
    ((0 < n)%nat ->
     i + Z.of_nat n <= num (colStart (cols0 r)) - 1 + gridColumnSpan (cols0 r)) ->
    covered cols0 children (snd (spread_new g n i r (cols, a))).
Proof.
  intros Hr Ht. induction n as [|n IH]; intros i cols a Hinv Hcov Hlo Hn;
    cbn [spread_new fst snd]; [exact Hcov|].
  destruct (ColumnSizes.open_slot a i); [|exact Hcov].
  pose proof (first_pass_set_new g cols0 cols a r i Hinv) as Hnew.
  rewrite size_info_pair. apply IH.
  - exact Hnew.
  - destruct Hinv as (Hc & Hwf & _). cbn [fst snd] in *.
    apply covered_set_new; [exact Hwf | exact Hcov |].
    apply covers_info_of; [exact Hc | exact Hr | exact Ht | lia].
  - lia.
  - lia.
Qed.

Lemma place_covered (cols : Columns) (a : ColumnSizes.t) (r : nat) :
  r ∈ children ->
  first_pass_inv g cols0 (cols, a) -> covered cols0 children a ->
  covered cols0 children (snd (place g (cols, a) r)).
Proof.
  intros Hr Hinv Hcov. pose proof Hinv as (Hc & Hwf & Hobj). cbn [fst snd] in *.
  destruct (Hc r) as [Hsame _].
  destruct (same_but_cache_fields _ _ Hsame) as (Hcs & _ & _ & _ & _ & _ & _ & _ & _ & Hsp).
  unfold place. rewrite Hcs, Hsp.
  destruct (truthyZ (colStart (cols0 r))) eqn:Ht; cbn [negb]; [|exact Hcov].
  pose proof (positive r Hr Ht) as Hpos.
  assert (Hnew : forall a', well_formed a' -> covered cols0 children a' ->
             covered cols0 children
               (snd (let '(e, cols') := size_info g r cols in
                     (cols', ColumnSizes.set_new a' (num (colStart (cols0 r)) - 1) e)))).
  { intros a' Hwf' Hcov'. rewrite size_info_pair. cbn [snd].
    apply covered_set_new; [exact Hwf' | exact Hcov' |].
    apply covers_info_of; [exact Hc | exact Hr | exact Ht | lia]. }
  destruct (ColumnSizes.get a (num (colStart (cols0 r)) - 1)) as [old|] eqn:Hold;
    [|now apply Hnew].
  assert (Horig : original g cols0 old).
  { rewrite Forall_forall in Hobj. apply Hobj. eapply get_elem_of, Hold. }
  pose proof (Hcov _ _ Hold) as Hco.
  destruct (_ || _).
  - destruct (_ && _); [|now apply Hnew].
    apply Hnew.
    + now apply spread_old_inv.
    + apply (spread_old_covered old); [exact Hwf | exact Hcov | exact Hold | lia | lia].
  - destruct (_ && _); [|exact Hcov].
    assert (Hos : 1 <= MRLColumnSizeInfo.colSpan old).
    { destruct Hco as (H1 & H2 & _). rewrite Horig. cbn. now apply positive. }
    apply spread_new_covered; [exact Hr | exact Ht | exact Hinv | exact Hcov | lia | lia].
Qed.

Lemma fold_place_covered (l : list nat) :
  (forall r, r ∈ l -> r ∈ children) ->
  forall st : Columns * ColumnSizes.t,
    first_pass_inv g cols0 st -> covered cols0 children (snd st) ->
    covered cols0 children (snd (fold_left (place g) l st)).
Proof.
  induction l as [|r l IH]; intros Hl [cols a] Hinv Hcov; cbn [fold_left]; [exact Hcov|].
  pose proof (place_inv g cols0 cols a r Hinv) as Hinv'.
  pose proof (place_covered cols a r (Hl r (list_elem_of_here _ _)) Hinv Hcov) as Hcov'.
  apply IH; [|exact Hinv' | exact Hcov'].
  intros r' Hr'. apply Hl. now apply list_elem_of_further.
Qed.

Lemma covers_flattened (i : Z) (e : MRLColumnSizeInfo.t) :
  covers cols0 children i e -> covers cols0 children i (flattened e).
Proof. intros H. exact H. Qed.

Lemma fill_span_covered (cur : MRLColumnSizeInfo.t) (i : Z) (n : nat) :
  covers cols0 children i cur ->
  forall j (a : ColumnSizes.t),
    0 <= j -> well_formed a -> covered cols0 children a ->
    let a' := snd (fill_span n i j cur a) in
    well_formed a' /\ covered cols0 children a'
    /\ (forall l e, ColumnSizes.objects a !! l = Some e -> ColumnSizes.objects a' !! l = Some e)
    /\ (forall k, k < i + j -> ColumnSizes.slots a' !! k = ColumnSizes.slots a !! k).
Proof.
  intros Hcur. induction n as [|n IH]; intros j a Hj Hwf Hcov; cbn [fill_span].
  - cbn. auto.
  - destruct (_ && _) eqn:Hguard; [|cbn; auto].
    destruct (stops_at cur _); [cbn; auto|].
    apply andb_true_iff in Hguard as [_ Hend]. apply Z.ltb_lt in Hend.
    set (a1 := ColumnSizes.set_new a (i + j) (flattened cur)).
    assert (Hwf1 : well_formed a1) by now apply well_formed_set_new.
    assert (Hcov1 : covered cols0 children a1).
    { apply covered_set_new; [exact Hwf | exact Hcov |].
      apply covers_flattened, (covers_slot i); [exact Hcur | lia |].
      destruct Hcur as (_ & _ & _ & H4). lia. }
    destruct (IH (j + 1) a1 ltac:(lia) Hwf1 Hcov1) as (H1 & H2 & H3 & H4).
    cbn zeta. split; [exact H1|]. split; [exact H2|]. split.
    + intros l e Hl. apply H3. cbn. now apply lookup_app_l_Some.
    + intros k Hk. rewrite H4 by lia. cbn. apply lookup_insert_ne. lia.
Qed.

Lemma flatten_from_covered (fuel : nat) :
  forall i (a a' : ColumnSizes.t),
    well_formed a -> covered cols0 children a -> flatten_from fuel i a = Some a' ->
    covered cols0 children a'.
Proof.
  induction fuel as [|fuel IH]; intros i a a' Hwf Hcov.
  - cbn. destruct (i <? ColumnSizes.length a); [discriminate|]. now intros [= <-].
  - cbn [flatten_from]. destruct (i <? ColumnSizes.length a); [|now intros [= <-]].
    destruct (ColumnSizes.slots a !! i) as [l|] eqn:Hl; [|now apply IH].
    destruct (ColumnSizes.objects a !! l) as [cur|] eqn:Hcur; [|now apply IH].
    destruct (1 <? MRLColumnSizeInfo.colSpan cur); [|now apply IH].
    assert (Hc : covers cols0 children i cur).
    { apply Hcov. unfold ColumnSizes.get. now rewrite Hl. }
    pose proof (fill_span_covered cur i (Z.to_nat (MRLColumnSizeInfo.colSpan cur - 1)) Hc
                  1 a ltac:(lia) Hwf Hcov) as (H1 & H2 & H3 & _).
    destruct (fill_span _ i 1 cur a) as [j a1]. cbn [fst snd] in *.
    apply IH; [now apply well_formed_update|].
    intros k x Hget. apply get_update_from in Hget as (y & Hy & [-> | [-> Hly]]).
    + now apply H2.
    + rewrite (H3 _ _ Hcur) in Hly. injection Hly as <-.
      apply covers_flattened. now apply H2.
Qed.

End Covered.

(** X16: every object of the returned array sits under its column.
    When each child that has a [colStart] ends after it starts, the
    object in slot [i] refers to one of the children, that child has a
    [colStart], the slot is one of those from [colStart - 1] up to
    [colStart - 1 + gridColumnSpan] (excluded), and the object ends where
    the child does. *)
Theorem reconciliation_slots_covered
    (g : Grid.t) (cols : Columns) (children : list nat)
    (positive : spans_positive cols children) :
  exists cols' a,
    getInitialChildColumnSizes g cols children = Some (cols', a)
    /\ covered cols children a.
Proof.
  destruct (getInitial_result g cols children) as (cols' & a1 & a & Hf & Hfl & Hr).
  exists cols', a. split; [exact Hr|].
  assert (H0 : first_pass_inv g cols (cols, ColumnSizes.empty)).
  { split; [apply cache_only_refl|]. split; [apply well_formed_empty | constructor]. }
  assert (H1 : first_pass_inv g cols (cols', a1)).
  { rewrite <- Hf. now apply fold_place_inv. }
  assert (H2 : covered cols children a1).
  { change a1 with (snd (cols', a1)). rewrite <- Hf.
    apply (fold_place_covered g cols children positive children); [auto | exact H0 |].
    intros i e Hget. unfold ColumnSizes.get in Hget. cbn in Hget.
    rewrite lookup_empty in Hget. discriminate. }
  destruct H1 as (_ & Hwf & _).
  exact (flatten_from_covered cols children _ 0 a1 a Hwf H2 Hfl).
Qed.

Lemma reconciliation_slots_covered_witness :
  spans_positive sample_layout [0; 1; 2]%nat
  /\ exists cols' a,
       getInitialChildColumnSizes sample_grid sample_layout [0; 1; 2]%nat = Some (cols', a)
       /\ covered sample_layout [0; 1; 2]%nat a.
Proof.
  assert (H : spans_positive sample_layout [0; 1; 2]%nat).
  { intros r Hr _. repeat (apply elem_of_cons in Hr as [-> | Hr]; [vm_compute; discriminate|]).
    now apply elem_of_nil in Hr. }
  split; [exact H|].
  exact (reconciliation_slots_covered sample_grid sample_layout [0; 1; 2]%nat H).
Defined.
